(** * Megaverse client: rate-limited dispatcher and goal-map builder

    A shallow embedding of [megaverse.py].  The class [MegaverseAPI] talks
    to a remote HTTP API through the [requests] library, reads the wall
    clock and writes log records.  These effects are made explicit:

    - the world ([World]) holds the object's attributes, the clock, the
      requests sent so far and the log records emitted so far;
    - the remote side is a function [transport] from the requests sent so
      far and the current request to a [reply];
    - the passing of time is a function [elapse] giving, for the n-th
      observation of the clock, how far the clock has moved since the one
      before: the time the activity in between took, and any step of the
      wall clock, which can be set back.

    Python exceptions are results ([Raise]) threaded through a state and
    error monad [M]. Times are integers counted in microseconds, the
    resolution of [datetime] and [timedelta]. *)

From Stdlib Require Import ZArith Ascii String.
From stdpp Require Import base strings list gmap.

Local Open Scope string_scope.
Local Open Scope list_scope.
Local Open Scope Z_scope.

(** ** Python values *)

(** Keyword-argument values that travel in a request body. *)
Inductive pyval :=
  | PInt (n : Z)
  | PStr (s : string).

#[global] Instance pyval_eq_dec : EqDecision pyval.
Proof. solve_decision. Defined.

(** What [response.json()] can yield.  [JNull] is Python's [None],
    [JObj] a [dict] (items in insertion order, keys distinct). *)
#[warnings="-register-all"]
Inductive json :=
  | JNull
  | JBool (b : bool)
  | JNum (n : Z)
  | JStr (s : string)
  | JArr (items : list json)
  | JObj (fields : list (string * json)).

(** ** Exceptions *)

Inductive exn_class :=
  | HTTPError | ConnectionError | ConnectTimeout | Timeout | ReadTimeout
  | JSONDecodeError | RequestException
  | AttributeError | KeyError | IndexError | TypeError.

#[global] Instance exn_class_eq_dec : EqDecision exn_class.
Proof. solve_decision. Defined.

(** [subclass c b]: class [c] is [b] or derives from it, as laid out in
    [requests.exceptions].  The builtin classes only match themselves. *)
Definition subclass (c b : exn_class) : bool :=
  match b, c with
  | RequestException,
    (HTTPError | ConnectionError | ConnectTimeout | Timeout | ReadTimeout
     | JSONDecodeError | RequestException) => true
  | ConnectionError, (ConnectionError | ConnectTimeout) => true
  | Timeout, (Timeout | ConnectTimeout | ReadTimeout) => true
  | _, _ => bool_decide (c = b)
  end.

Record exn := Exn { exn_cls : exn_class; exn_msg : string }.

Inductive outcome (A : Type) :=
  | Ok (a : A)
  | Raise (e : exn).
Arguments Ok {A} a.
Arguments Raise {A} e.

(** ** The enumerations *)

Inductive SoloonColor := BLUE | RED | PURPLE | WHITE.

Definition SoloonColor_value (c : SoloonColor) : string :=
  match c with
  | BLUE => "blue" | RED => "red" | PURPLE => "purple" | WHITE => "white"
  end.

Definition SoloonColor_member (name : string) : option SoloonColor :=
  if decide (name = "BLUE") then Some BLUE
  else if decide (name = "RED") then Some RED
  else if decide (name = "PURPLE") then Some PURPLE
  else if decide (name = "WHITE") then Some WHITE
  else None.

Inductive ComethDirection := UP | DOWN | RIGHT | LEFT.

Definition ComethDirection_value (d : ComethDirection) : string :=
  match d with
  | UP => "up" | DOWN => "down" | RIGHT => "right" | LEFT => "left"
  end.

Definition ComethDirection_member (name : string) : option ComethDirection :=
  if decide (name = "UP") then Some UP
  else if decide (name = "DOWN") then Some DOWN
  else if decide (name = "RIGHT") then Some RIGHT
  else if decide (name = "LEFT") then Some LEFT
  else None.

(** [getattr(SoloonColor, name).value].  The names reaching it are first
    segments of a split on "_", so they hold no underscore; for such a name
    the class has the four members and otherwise only attributes without a
    [value], and both the failed lookup and the failed [.value] raise
    [AttributeError]. *)
Definition getattr_SoloonColor_value (name : string) : outcome string :=
  match SoloonColor_member name with
  | Some c => Ok (SoloonColor_value c)
  | None => Raise (Exn AttributeError name)
  end.

Definition getattr_ComethDirection_value (name : string) : outcome string :=
  match ComethDirection_member name with
  | Some d => Ok (ComethDirection_value d)
  | None => Raise (Exn AttributeError name)
  end.

(** ** Strings *)

(** [s.split(sep)] for a one-character separator. *)
Fixpoint split (sep : ascii) (s : string) : list string :=
  match s with
  | EmptyString => [EmptyString]
  | String c rest =>
      if decide (c = sep) then EmptyString :: split sep rest
      else match split sep rest with
           | seg :: segs => String c seg :: segs
           | [] => [String c EmptyString]
           end
  end.

Definition ascii_upper (c : ascii) : ascii :=
  let n := nat_of_ascii c in
  if ((97 <=? n) && (n <=? 122))%nat then ascii_of_nat (n - 32) else c.

Definition ascii_lower (c : ascii) : ascii :=
  let n := nat_of_ascii c in
  if ((65 <=? n) && (n <=? 90))%nat then ascii_of_nat (n + 32) else c.

Fixpoint lower (s : string) : string :=
  match s with
  | EmptyString => EmptyString
  | String c rest => String (ascii_lower c) (lower rest)
  end.

(** [s.capitalize()] on ASCII text. *)
Definition capitalize (s : string) : string :=
  match s with
  | EmptyString => EmptyString
  | String c rest => String (ascii_upper c) (lower rest)
  end.

(** The create commands of the object operations. *)
Inductive command :=
  | CreatePoint (row column : Z)
  | CreateColorMarker (row column : Z) (color : SoloonColor)
  | CreateDirectionMarker (row column : Z) (direction : ComethDirection).

#[global] Instance SoloonColor_eq_dec : EqDecision SoloonColor.
Proof. solve_decision. Defined.
#[global] Instance ComethDirection_eq_dec : EqDecision ComethDirection.
Proof. solve_decision. Defined.
#[global] Instance command_eq_dec : EqDecision command.
Proof. solve_decision. Defined.

(** One dispatched call: the arguments of [_handle_requests]. *)
Record call := {
  call_method : string;
  call_endpoint : string;
  call_fields : gmap string pyval
}.

(** ** The world *)

Record request := Request {
  req_method : string;
  req_url : string;
  req_data : gmap string pyval
}.

#[global] Instance request_eq_dec : EqDecision request.
Proof. solve_decision. Defined.

(** Ways in which a call into [requests] fails without a response. *)
Inductive fault :=
  | ConnectionFault      (* ConnectionError, SSLError, ProxyError *)
  | ConnectTimeoutFault  (* ConnectTimeout: a ConnectionError and a Timeout *)
  | ReadTimeoutFault     (* ReadTimeout *)
  | OtherFault.          (* any other RequestException *)

Definition fault_class (f : fault) : exn_class :=
  match f with
  | ConnectionFault => ConnectionError
  | ConnectTimeoutFault => ConnectTimeout
  | ReadTimeoutFault => ReadTimeout
  | OtherFault => RequestException
  end.

(** A response: its status code, the text [raise_for_status] reports for
    an error status, and the decoded body ([None] when it is not JSON). *)
Record response := {
  status_code : Z;
  status_text : string;
  body : option json
}.

(** A reply of the remote side: a response, or a fault with its text. *)
Inductive reply :=
  | Response (r : response)
  | Failed (f : fault) (text : string).

Inductive level := ERROR | INFO.

#[global] Instance level_eq_dec : EqDecision level.
Proof. solve_decision. Defined.

(** The attributes of a [MegaverseAPI] object. *)
Record MegaverseAPI := {
  candidate_id : string;
  base_url : string;
  request_delay : Z;
  last_request_time : Z
}.

Record World := {
  self : MegaverseAPI;
  clock : Z;
  steps : nat;
  sent : list request;
  logs : list (level * string)
}.

Definition M (A : Type) : Type := World → World * outcome A.

#[global] Instance M_ret : MRet M := λ A a w, (w, Ok a).
#[global] Instance M_bind : MBind M := λ A B f m w,
  match m w with
  | (w', Ok a) => f a w'
  | (w', Raise e) => (w', Raise e)
  end.

Definition raise {A} (e : exn) : M A := λ w, (w, Raise e).

Definition lift {A} (o : outcome A) : M A := λ w, (w, o).

(** [try: body except ...: handler]; a handler that does not match the
    exception answers [None] and the exception goes on. *)
Definition try_except {A} (body : M A) (handler : exn → option (M A)) : M A :=
  λ w,
    match body w with
    | (w', Ok a) => (w', Ok a)
    | (w', Raise e) =>
        match handler e with
        | Some h => h w'
        | None => (w', Raise e)
        end
    end.

Definition exec {A} (m : M A) (w : World) : World := fst (m w).
Definition result {A} (m : M A) (w : World) : outcome A := snd (m w).

Definition get_self : M MegaverseAPI := λ w, (w, Ok (self w)).

Definition set_last_request_time (t : Z) : M unit := λ w,
  ({| self := {| candidate_id := candidate_id (self w);
                 base_url := base_url (self w);
                 request_delay := request_delay (self w);
                 last_request_time := t |};
      clock := clock w; steps := steps w; sent := sent w; logs := logs w |},
   Ok ()).

Definition logging (lv : level) (msg : string) : M unit := λ w,
  ({| self := self w; clock := clock w; steps := steps w; sent := sent w;
      logs := logs w ++ [(lv, msg)] |}, Ok ()).

(** Default of [config.get('request_delay', 0.6)], in microseconds. *)
Definition default_request_delay : Z := 600000.

Section Client.

(** The remote side and the passing of time. *)
Variable transport : list request → request → reply.
Variable elapse : nat → Z.

(** The clock moves by [extra] and by what the current activity and any
    step of the wall clock add up to. *)
Definition pass_time (extra : Z) (w : World) : World :=
  {| self := self w;
     clock := clock w + extra + elapse (steps w);
     steps := S (steps w);
     sent := sent w; logs := logs w |}.

(** [datetime.now()] *)
Definition datetime_now : M Z := λ w,
  let w' := pass_time 0 w in (w', Ok (clock w')).

(** [time.sleep(d)]: suspends for [d]; an overshoot is part of [elapse].
    The function takes durations below 2^63 ns. *)
Definition time_sleep (d : Z) : M unit := λ w, (pass_time d w, Ok ()).

(** [__init__], after the configuration file is read. *)
Definition init (candidate base : string) (delay : option Z) : M unit := λ w,
  let w' := pass_time 0 w in
  ({| self := {| candidate_id := candidate; base_url := base;
                 request_delay := default default_request_delay delay;
                 last_request_time := clock w' |};
      clock := clock w'; steps := steps w'; sent := sent w';
      logs := logs w' |}, Ok ()).

Definition _rate_time : M unit :=
  now ← datetime_now;
  me ← get_self;
  (if bool_decide (now - last_request_time me < request_delay me)
   then time_sleep (request_delay me - (now - last_request_time me))
   else mret ());;
  now' ← datetime_now;
  set_last_request_time now'.

(** The functions of the [requests] module that take [(url, **kwargs)]
    and return a response. *)
Definition requests_functions : list string :=
  ["get"; "post"; "put"; "patch"; "delete"; "head"; "options"].

(** [getattr(requests, method)(url, data=payload)].  A name that is not
    one of [requests_functions] ends in an exception outside
    [RequestException]: the module has no such attribute, or the attribute
    cannot be called this way; both are rendered as [AttributeError]. *)
Definition requests_call (method url : string)
    (payload : gmap string pyval) : M response :=
  if bool_decide (method ∈ requests_functions) then
    λ w,
      let req := Request method url payload in
      let w' := pass_time 0 {| self := self w; clock := clock w;
                               steps := steps w; sent := sent w ++ [req];
                               logs := logs w |} in
      match transport (sent w) req with
      | Response r => (w', Ok r)
      | Failed f text => (w', Raise (Exn (fault_class f) text))
      end
  else raise (Exn AttributeError method).

(** [response.raise_for_status()] *)
Definition raise_for_status (r : response) : M unit :=
  if bool_decide (400 ≤ status_code r < 600)
  then raise (Exn HTTPError (status_text r))
  else mret ().

(** [response.json()]; a body that does not decode raises
    [requests.exceptions.JSONDecodeError], a [RequestException]. *)
Definition response_json (r : response) : M json :=
  match body r with
  | Some v => mret v
  | None => raise (Exn JSONDecodeError "Expecting value")
  end.

(** The [except] clauses of [_handle_requests], tried in order.  Each
    logs and falls off the end of the function, which returns [None]. *)
Definition request_handlers (e : exn) : option (M json) :=
  if subclass (exn_cls e) HTTPError then
    Some (logging ERROR ("HTTP Error: " +:+ exn_msg e);; mret JNull)
  else if subclass (exn_cls e) ConnectionError then
    Some (logging ERROR ("Error Connecting: " +:+ exn_msg e);; mret JNull)
  else if subclass (exn_cls e) Timeout then
    Some (logging ERROR ("Timeout Error: " +:+ exn_msg e);; mret JNull)
  else if subclass (exn_cls e) RequestException then
    Some (logging ERROR ("Something weird went wrong: " +:+ exn_msg e);;
          mret JNull)
  else None.

(** The request body [{"candidateId": self.candidate_id, **kwards}]:
    entries of [kwards] are written after, and over, the first one. *)
Definition make_payload (me : MegaverseAPI)
    (kwards : gmap string pyval) : gmap string pyval :=
  kwards ∪ {[ "candidateId" := PStr (candidate_id me) ]}.

(** [kwards] holds the keyword arguments left once [self], [method] and
    [endpoint] are bound. *)
Definition _handle_requests (method endpoint : string)
    (kwards : gmap string pyval) : M json :=
  _rate_time;;
  me ← get_self;
  let url := base_url me +:+ "/" +:+ endpoint in
  let payload := make_payload me kwards in
  try_except
    (r ← requests_call method url payload;
     raise_for_status r;;
     response_json r)
    request_handlers.

(** Keywords that cannot be forwarded in [**kwargs]: the call
    [self._handle_requests("post", object_type, row=row, column=column,
    **kwargs)] gives them a value already, and a second one is a
    [TypeError]. *)
Definition taken_keywords : list string :=
  ["self"; "method"; "endpoint"; "row"; "column"].

Definition create_object (object_type : string) (row column : Z)
    (kwargs : gmap string pyval) : M unit :=
  match filter (λ k, is_Some (kwargs !! k)) taken_keywords with
  | k :: _ => raise (Exn TypeError k)
  | [] =>
      _handle_requests "post" object_type
        (<["row" := PInt row]> (<["column" := PInt column]> kwargs));;
      logging INFO (capitalize object_type +:+ " successfully created")
  end.

Definition delete_object (object_type : string) (row column : Z) : M unit :=
  _handle_requests "delete" object_type
    (<["row" := PInt row]> {[ "column" := PInt column ]});;
  logging INFO (capitalize object_type +:+ " successfully deleted").

Definition create_soloon (row column : Z) (color : pyval) : M unit :=
  create_object "soloons" row column {[ "color" := color ]}.

Definition delete_soloon (row column : Z) : M unit :=
  delete_object "soloons" row column.

Definition create_cometh (row column : Z) (direction : pyval) : M unit :=
  create_object "comeths" row column {[ "direction" := direction ]}.

Definition delete_cometh (row column : Z) : M unit :=
  delete_object "comeths" row column.

Definition create_polyanet (row column : Z) : M unit :=
  create_object "polyanets" row column ∅.

Definition delete_polyanet (row column : Z) : M unit :=
  delete_object "polyanets" row column.

(** [for x in xs: body(x)] *)
Fixpoint for_each {A} (xs : list A) (body : A → M unit) : M unit :=
  match xs with
  | [] => mret ()
  | x :: rest => body x;; for_each rest body
  end.

(** [range(n)] *)
Definition range (n : nat) : list Z := Z.of_nat <$> seq 0 n.

Definition create_polyanet_cross : M unit :=
  for_each (range 11) (λ i,
    if i =? 5 then create_polyanet i i
    else if (i >=? 2) && (i <=? 8) then
      create_polyanet i i;;
      create_polyanet i (10 - i)
    else mret ()).

Definition goal_map : M json :=
  me ← get_self;
  _handle_requests "get" ("map/" +:+ candidate_id me +:+ "/goal") ∅.

(** *** Operations of Python on decoded JSON *)

(** [d[key]] on a dict *)
Fixpoint getitem (fields : list (string * json)) (key : string)
    : outcome json :=
  match fields with
  | [] => Raise (Exn KeyError key)
  | (k, v) :: rest => if decide (k = key) then Ok v else getitem rest key
  end.

(** The items [enumerate(v)] runs through: the elements of a list, the
    characters of a string, the keys of a dict; anything else is not
    iterable. *)
Definition iterate (v : json) : outcome (list json) :=
  match v with
  | JArr items => Ok items
  | JStr s => Ok ((λ c, JStr (String c EmptyString)) <$> list_ascii_of_string s)
  | JObj fields => Ok ((λ kv, JStr kv.1) <$> fields)
  | _ => Raise (Exn TypeError "object is not iterable")
  end.

(** [v == text] for a string literal [text] *)
Definition equals_str (v : json) (text : string) : bool :=
  match v with
  | JStr s => bool_decide (s = text)
  | _ => false
  end.

(** [v.split("_")[n]]: only strings have [split]. *)
Definition split_item (v : json) (n : nat) : outcome string :=
  match v with
  | JStr s =>
      match split "_" s !! n with
      | Some seg => Ok seg
      | None => Raise (Exn IndexError "list index out of range")
      end
  | _ => Raise (Exn AttributeError "split")
  end.

(** What the body of the inner loop does next: go on with the loop, or
    [return] from [create_crossmint_logo]. *)
Inductive flow := Continue | Return.

(** [try: v = lookup except AttributeError: logging.error(...); return] *)
Definition attribute_or_return (lookup : outcome string) (text : string)
    : M (option string) :=
  try_except
    (v ← lift lookup; mret (Some v))
    (λ e, if subclass (exn_cls e) AttributeError
          then Some (logging ERROR ("Invalid Soloon direction: " +:+ text);;
                     mret None)
          else None).

(** The body of the inner loop of [create_crossmint_logo]. *)
Definition visit (i j : nat) (object_name : json) : M flow :=
  if equals_str object_name "SPACE" then mret Continue
  else if equals_str object_name "POLYANET" then
    create_polyanet (Z.of_nat i) (Z.of_nat j);; mret Continue
  else
    second ← lift (split_item object_name 1);
    if bool_decide (second = "COMETH") then
      direction_text ← lift (split_item object_name 0);
      found ← attribute_or_return
                (getattr_ComethDirection_value direction_text) direction_text;
      match found with
      | None => mret Return
      | Some direction_att =>
          create_cometh (Z.of_nat i) (Z.of_nat j) (PStr direction_att);;
          mret Continue
      end
    else
      color_text ← lift (split_item object_name 0);
      found ← attribute_or_return
                (getattr_SoloonColor_value color_text) color_text;
      match found with
      | None => mret Return
      | Some color_att =>
          create_soloon (Z.of_nat i) (Z.of_nat j) (PStr color_att);;
          mret Continue
      end.

(** [for j, object_name in enumerate(row)], from column [j] on *)
Fixpoint for_columns (i j : nat) (row : list json) : M flow :=
  match row with
  | [] => mret Continue
  | object_name :: rest =>
      next ← visit i j object_name;
      match next with
      | Return => mret Return
      | Continue => for_columns i (S j) rest
      end
  end.

(** [for i, row in enumerate(response["goal"])], from row [i] on *)
Fixpoint for_rows (i : nat) (rows : list json) : M flow :=
  match rows with
  | [] => mret Continue
  | row :: rest =>
      cells ← lift (iterate row);
      next ← for_columns i 0 cells;
      match next with
      | Return => mret Return
      | Continue => for_rows (S i) rest
      end
  end.

Definition create_crossmint_logo : M unit :=
  response ← goal_map;
  match response with
  | JObj fields =>
      goal ← lift (getitem fields "goal");
      rows ← lift (iterate goal);
      for_rows 0 rows;;
      mret ()
  | _ => mret ()
  end.

(** The method a create command stands for. *)
Definition run_command (c : command) : M unit :=
  match c with
  | CreatePoint row column => create_polyanet row column
  | CreateColorMarker row column color =>
      create_soloon row column (PStr (SoloonColor_value color))
  | CreateDirectionMarker row column direction =>
      create_cometh row column (PStr (ComethDirection_value direction))
  end.

(** A sequence of dispatched calls; the worlds at the return of each. *)
Fixpoint dispatch_all (calls : list call) (w : World) : list World :=
  match calls with
  | [] => []
  | c :: rest =>
      let w' := exec (_handle_requests (call_method c) (call_endpoint c)
                        (call_fields c)) w in
      w' :: dispatch_all rest w'
  end.

End Client.


(** ** Vocabulary of the statements *)

(** The attributes fixed at construction. *)
Definition same_config (a b : MegaverseAPI) : Prop :=
  candidate_id a = candidate_id b ∧ base_url a = base_url b
  ∧ request_delay a = request_delay b.

(** The outcomes of a dispatch as the design document names them. *)
Inductive fault_kind := Connection | TimedOut | Other.

Inductive Outcome :=
  | Success (payload : json)
  | ApiError (status : Z) (message : string)
  | TransportError (kind : fault_kind) (message : string).

(** The outcome a reply amounts to. *)
Definition classify (rep : reply) : Outcome :=
  match rep with
  | Response r =>
      if bool_decide (400 ≤ status_code r < 600)
      then ApiError (status_code r) (status_text r)
      else match body r with
           | Some v => Success v
           | None => TransportError Other "Expecting value"
           end
  | Failed (ConnectionFault | ConnectTimeoutFault) text =>
      TransportError Connection text
  | Failed ReadTimeoutFault text => TransportError TimedOut text
  | Failed OtherFault text => TransportError Other text
  end.

(** What the caller gets for an outcome: the payload, or [None]. *)
Definition returned (o : Outcome) : json :=
  match o with
  | Success payload => payload
  | _ => JNull
  end.

(** What the log gets for an outcome. *)
Definition logged (o : Outcome) : list (level * string) :=
  match o with
  | Success _ => []
  | ApiError _ message => [(ERROR, "HTTP Error: " +:+ message)]
  | TransportError Connection message =>
      [(ERROR, "Error Connecting: " +:+ message)]
  | TransportError TimedOut message => [(ERROR, "Timeout Error: " +:+ message)]
  | TransportError Other message =>
      [(ERROR, "Something weird went wrong: " +:+ message)]
  end.

(** The request a dispatch sends. *)
Definition dispatched (me : MegaverseAPI) (method endpoint : string)
    (kwards : gmap string pyval) : request :=
  Request method (base_url me +:+ "/" +:+ endpoint) (make_payload me kwards).

(** The request that fetches the goal map. *)
Definition goal_request (me : MegaverseAPI) : request :=
  dispatched me "get" ("map/" +:+ candidate_id me +:+ "/goal") ∅.

Definition position (c : command) : Z * Z :=
  match c with
  | CreatePoint row column
  | CreateColorMarker row column _
  | CreateDirectionMarker row column _ => (row, column)
  end.

(** The request a create command amounts to. *)
Definition command_request (me : MegaverseAPI) (c : command) : request :=
  match c with
  | CreatePoint row column =>
      dispatched me "post" "polyanets"
        (<["row" := PInt row]> (<["column" := PInt column]> ∅))
  | CreateColorMarker row column color =>
      dispatched me "post" "soloons"
        (<["row" := PInt row]> (<["column" := PInt column]>
           {[ "color" := PStr (SoloonColor_value color) ]}))
  | CreateDirectionMarker row column direction =>
      dispatched me "post" "comeths"
        (<["row" := PInt row]> (<["column" := PInt column]>
           {[ "direction" := PStr (ComethDirection_value direction) ]}))
  end.

(** The points of the cross, in the order they are placed. *)
Definition cross_positions : list (Z * Z) :=
  [(2, 2); (2, 8); (3, 3); (3, 7); (4, 4); (4, 6); (5, 5);
   (6, 6); (6, 4); (7, 7); (7, 3); (8, 8); (8, 2)].

(** What one iteration of [create_polyanet_cross] places. *)
Definition cross_commands (i : Z) : list command :=
  if i =? 5 then [CreatePoint i i]
  else if (i >=? 2) && (i <=? 8) then [CreatePoint i i; CreatePoint i (10 - i)]
  else [].

(** *** Goal grids *)

Definition color_names : list string := ["BLUE"; "RED"; "PURPLE"; "WHITE"].
Definition direction_names : list string := ["UP"; "DOWN"; "RIGHT"; "LEFT"].

(** The meaning of a label at a position: nothing to do, a command, a
    label whose attribute is not recognized, or a label that is not of the
    form the builder expects. *)
Inductive verdict :=
  | Skip
  | Place (c : command)
  | Reject (text : string)
  | Crash (e : exn).

Definition interpret (i j : nat) (label : string) : verdict :=
  if decide (label = "SPACE") then Skip
  else if decide (label = "POLYANET")
  then Place (CreatePoint (Z.of_nat i) (Z.of_nat j))
  else
    match split "_" label with
    | first :: second :: _ =>
        if decide (second = "COMETH") then
          match ComethDirection_member first with
          | Some d => Place (CreateDirectionMarker (Z.of_nat i) (Z.of_nat j) d)
          | None => Reject first
          end
        else
          match SoloonColor_member first with
          | Some c => Place (CreateColorMarker (Z.of_nat i) (Z.of_nat j) c)
          | None => Reject first
          end
    | _ => Crash (Exn IndexError "list index out of range")
    end.

(** The command a cell stands for, if any. *)
Definition placement (cell : nat * nat * string) : option command :=
  match interpret cell.1.1 cell.1.2 cell.2 with
  | Place c => Some c
  | _ => None
  end.

(** A label the builder handles: SPACE, POLYANET, or an attribute and a
    category joined by "_" where the attribute is a direction name for
    COMETH and a color name otherwise. *)
Definition well_formed (label : string) : bool :=
  bool_decide (label = "SPACE") || bool_decide (label = "POLYANET") ||
  match split "_" label with
  | first :: second :: _ =>
      if decide (second = "COMETH")
      then bool_decide (first ∈ direction_names)
      else bool_decide (first ∈ color_names)
  | _ => false
  end.

(** A label in two parts or more whose attribute is not a name of the
    enumeration its category calls for. *)
Definition unrecognized (label : string) : bool :=
  match split "_" label with
  | first :: second :: _ =>
      if decide (second = "COMETH")
      then bool_decide (first ∉ direction_names)
      else bool_decide (first ∉ color_names)
  | _ => false
  end.

(** The attribute segment of a label: what precedes the first "_". *)
Definition attribute_segment (label : string) : string :=
  default "" (head (split "_" label)).

(** The cells of a row from column [j] on, and of the rows from row [i]
    on, each with its position. *)
Fixpoint row_cells (i j : nat) (row : list string) : list (nat * nat * string) :=
  match row with
  | [] => []
  | label :: rest => (i, j, label) :: row_cells i (S j) rest
  end.

Fixpoint grid_cells (i : nat) (grid : list (list string))
    : list (nat * nat * string) :=
  match grid with
  | [] => []
  | row :: rest => row_cells i 0 row ++ grid_cells (S i) rest
  end.

(** The cells of a grid in row-major order. *)
Definition row_major (grid : list (list string)) : list (nat * nat * string) :=
  grid_cells 0 grid.

(** How a pass over cells ends. *)
Inductive ending :=
  | Completed
  | Aborted (text : string)
  | Crashed (e : exn).

(** The commands a pass over [cells] issues, and how it ends. *)
Fixpoint plan (cells : list (nat * nat * string)) : list command * ending :=
  match cells with
  | [] => ([], Completed)
  | (i, j, label) :: rest =>
      match interpret i j label with
      | Skip => plan rest
      | Place c => (c :: (plan rest).1, (plan rest).2)
      | Reject text => ([], Aborted text)
      | Crash e => ([], Crashed e)
      end
  end.

Definition loop_result (e : ending) : outcome flow :=
  match e with
  | Completed => Ok Continue
  | Aborted _ => Ok Return
  | Crashed e => Raise e
  end.

Definition build_result (e : ending) : outcome () :=
  match e with
  | Crashed e => Raise e
  | _ => Ok ()
  end.

(** The goal grid as the body of the goal endpoint's response. *)
Definition grid_json (grid : list (list string)) : json :=
  JArr ((λ row, JArr (JStr <$> row)) <$> grid).

Definition goal_response (grid : list (list string)) : json :=
  JObj [("goal", grid_json grid)].

(** In world [w] the goal endpoint answers with [grid]. *)
Definition serves_goal (transport : list request → request → reply)
    (w : World) (grid : list (list string)) : Prop :=
  returned (classify (transport (sent w) (goal_request (self w))))
  = goal_response grid.

Definition is_dict (v : json) : bool :=
  match v with
  | JObj _ => true
  | _ => false
  end.

(** The clock is not set back, and no activity takes negative time. *)
Definition forward (elapse : nat → Z) : Prop := ∀ n, 0 ≤ elapse n.

(** What [_rate_time] hands to [time.sleep] when it arrives in [w] before
    the delay has passed. *)
Definition requested_sleep (elapse : nat → Z) (w : World) : Z :=
  request_delay (self w)
  - (clock w + elapse (steps w) - last_request_time (self w)).

(** The bound of [time.sleep] on its argument, in nanoseconds. *)
Definition sleep_limit : Z := 2 ^ 63.

(** The error record for a rejected attribute. *)
Definition invalid_attribute (text : string) : level * string :=
  (ERROR, "Invalid Soloon direction: " +:+ text).

(** The timestamps the limiter has recorded in a sequence of worlds, and
    the differences between consecutive entries. *)
Definition stamps (ws : list World) : list Z :=
  (λ w, last_request_time (self w)) <$> ws.

Fixpoint gaps (ts : list Z) : list Z :=
  match ts with
  | a :: (b :: _) as rest => (b - a) :: gaps rest
  | _ => []
  end.

(** The grid of the worked example. *)
Definition example_grid : list (list string) :=
  [["SPACE"; "POLYANET"]; ["RED_SOLOON"; "UP_COMETH"]].

(** ** Concrete runs *)

Definition demo_api : MegaverseAPI :=
  {| candidate_id := "c-1"; base_url := "https://api"; request_delay := 600000;
     last_request_time := 0 |}.

Definition demo_world : World :=
  {| self := demo_api; clock := 0; steps := 0; sent := []; logs := [] |}.

Definition respond (v : json) : reply :=
  Response {| status_code := 200; status_text := ""; body := Some v |}.

(** A remote side that serves [grid] and accepts every other request. *)
Definition demo_transport (grid : list (list string))
    (history : list request) (r : request) : reply :=
  if decide (req_method r = "get") then respond (goal_response grid)
  else respond (JObj []).

(** A remote side that serves [grid] and is unreachable afterwards. *)
Definition flaky_transport (grid : list (list string))
    (history : list request) (r : request) : reply :=
  if decide (req_method r = "get") then respond (goal_response grid)
  else Failed ConnectionFault "Connection refused".

(** A remote side that answers every request with [v]. *)
Definition constant_transport (v : json)
    (history : list request) (r : request) : reply :=
  respond v.

(** A remote side that is down. *)
Definition dead_transport (history : list request) (r : request) : reply :=
  Failed ConnectionFault "Connection refused".

Definition no_delay (n : nat) : Z := 0.

(** Time passes only while the first request is under way (the fourth
    activity of a run: reading the clock, sleeping, reading the clock,
    sending), which takes half a second. *)
Definition slow_first_request (n : nat) : Z :=
  match n with
  | 3%nat => 500000
  | _ => 0
  end.

(** The wall clock is set back by an hour while the limiter sleeps for
    the first time. *)
Definition clock_set_back (n : nat) : Z :=
  match n with
  | 1%nat => -3600000000
  | _ => 0
  end.

Definition ping : call :=
  {| call_method := "post"; call_endpoint := "polyanets"; call_fields := ∅ |}.

(** ** Vocabulary of the further properties *)

(** The member names of the enumerations. *)
Definition SoloonColor_name (c : SoloonColor) : string :=
  match c with
  | BLUE => "BLUE" | RED => "RED" | PURPLE => "PURPLE" | WHITE => "WHITE"
  end.

Definition ComethDirection_name (d : ComethDirection) : string :=
  match d with
  | UP => "UP" | DOWN => "DOWN" | RIGHT => "RIGHT" | LEFT => "LEFT"
  end.

(** [sep.join(segments)] for a one-character separator. *)
Fixpoint join (sep : ascii) (segments : list string) : string :=
  match segments with
  | [] => EmptyString
  | [seg] => seg
  | seg :: rest => seg +:+ String sep (join sep rest)
  end.

(** The characters of a string. *)
Definition chars (s : string) : list ascii := list_ascii_of_string s.

(** From [w] to [w'] the configuration is kept and the limiter's timestamp
    has moved on by at least [request_delay] for each request sent. *)
Definition paced (w w' : World) : Prop :=
  same_config (self w) (self w')
  ∧ (length (sent w) ≤ length (sent w'))%nat
  ∧ last_request_time (self w)
    + request_delay (self w)
      * (Z.of_nat (length (sent w')) - Z.of_nat (length (sent w)))
    ≤ last_request_time (self w')
  ∧ (last_request_time (self w) ≤ clock w →
     last_request_time (self w') ≤ clock w').

(** A computation that is [paced] from every world. *)
Definition Paced {A} (m : M A) : Prop := ∀ w, paced w (exec m w).

(** The row and the column a request carries in its body. *)
Definition request_position (r : request) : option pyval * option pyval :=
  (req_data r !! "row", req_data r !! "column").

(** The body of a request that carries a position and nothing else. *)
Definition position_body (me : MegaverseAPI) (row column : Z)
    : gmap string pyval :=
  <["candidateId" := PStr (candidate_id me)]>
    (<["row" := PInt row]> {[ "column" := PInt column ]}).

(** ** The definitions at work *)

Example split_two_parts : split "_" "RED_SOLOON" = ["RED"; "SOLOON"].
Proof. reflexivity. Qed.

Example split_one_part : split "_" "POLYANET" = ["POLYANET"].
Proof. reflexivity. Qed.

Example split_three_parts : split "_" "A__B" = ["A"; ""; "B"].
Proof. reflexivity. Qed.

Example capitalize_object_type : capitalize "polyanets" = "Polyanets".
Proof. reflexivity. Qed.

Example row_major_example :
  row_major example_grid
  = [(0, 0, "SPACE"); (0, 1, "POLYANET");
     (1, 0, "RED_SOLOON"); (1, 1, "UP_COMETH")]%nat.
Proof. reflexivity. Qed.

Example connect_timeout_is_connection_error :
  subclass ConnectTimeout ConnectionError = true
  ∧ subclass ReadTimeout ConnectionError = false
  ∧ subclass AttributeError RequestException = false.
Proof. done. Qed.

Lemma elem_of_row_cells i j0 row i' j label :
  (i', j, label) ∈ row_cells i j0 row
  ↔ i' = i ∧ (j0 ≤ j)%nat ∧ row !! (j - j0)%nat = Some label.
Proof.
  revert j0. induction row as [|l row IH]; intros j0; cbn [row_cells].
  - split; [by intros ?%elem_of_nil|]. intros (_ & _ & Hl).
    by rewrite lookup_nil in Hl.
  - rewrite elem_of_cons, IH. split.
    + intros [Heq|(-> & Hj & Hl)].
      * simplify_eq. by rewrite Nat.sub_diag.
      * split; [done|]. split; [lia|].
        by replace (j - j0)%nat with (S (j - S j0)) by lia.
    + intros (-> & Hj & Hl). destruct (decide (j = j0)) as [->|Hne].
      * rewrite Nat.sub_diag in Hl. left. by injection Hl as ->.
      * right. split; [done|]. split; [lia|].
        by replace (j - j0)%nat with (S (j - S j0)) in Hl by lia.
Qed.

Lemma elem_of_grid_cells i0 grid i j label :
  (i, j, label) ∈ grid_cells i0 grid
  ↔ (i0 ≤ i)%nat
    ∧ ∃ row, grid !! (i - i0)%nat = Some row ∧ row !! j = Some label.
Proof.
  revert i0. induction grid as [|r grid IH]; intros i0; cbn [grid_cells].
  - split; [by intros ?%elem_of_nil|]. intros (_ & row & Hrow & _).
    by rewrite lookup_nil in Hrow.
  - rewrite elem_of_app, elem_of_row_cells, IH, Nat.sub_0_r. split.
    + intros [(-> & _ & Hl)|(Hi & row & Hrow & Hl)].
      * split; [done|]. exists r. by rewrite Nat.sub_diag.
      * split; [lia|]. exists row.
        by replace (i - i0)%nat with (S (i - S i0)) by lia.
    + intros (Hi & row & Hrow & Hl). destruct (decide (i = i0)) as [->|Hne].
      * left. rewrite Nat.sub_diag in Hrow. injection Hrow as ->.
        split; [done|]. split; [lia|done].
      * right. split; [lia|]. exists row.
        by replace (i - i0)%nat with (S (i - S i0)) in Hrow by lia.
Qed.

(** The cells of [row_major] are the entries of the grid, each at its
    row and column. *)
Lemma elem_of_row_major grid i j label :
  (i, j, label) ∈ row_major grid
  ↔ ∃ row, grid !! i = Some row ∧ row !! j = Some label.
Proof.
  unfold row_major. rewrite elem_of_grid_cells, Nat.sub_0_r.
  split; [by intros [_ ?]|]. intros ?. split; [lia|done].
Qed.

(** ** Running a computation *)

Lemma bind_ok {A B} (m : M A) (f : A → M B) w w' a :
m w = (w', Ok a) → (m ≫= f) w = f a w'.
Proof. unfold mbind, M_bind. by intros ->. Qed.

Lemma bind_raise {A B} (m : M A) (f : A → M B) w w' e :
m w = (w', Raise e) → (m ≫= f) w = (w', Raise e).
Proof. unfold mbind, M_bind. by intros ->. Qed.

Lemma same_config_refl a : same_config a a.
Proof. by repeat split. Qed.

Lemma same_config_trans a b c :
same_config a b → same_config b c → same_config a c.
Proof. unfold same_config. intuition congruence. Qed.

(** ** The rate limiter *)

Section RateLimiter.

Variable transport : list request → request → reply.
Variable elapse : nat → Z.

(** [_rate_time] returns, touches neither the requests nor the log, and
    leaves in [last_request_time] a reading of the clock; on a clock that
    is not set back the reading is at least [request_delay] after the
    previous one. *)
Lemma rate_time_run w :
  ∃ w', _rate_time elapse w = (w', Ok ())
    ∧ sent w' = sent w ∧ logs w' = logs w
    ∧ same_config (self w) (self w')
    ∧ last_request_time (self w') = clock w'
    ∧ (forward elapse →
       last_request_time (self w) + request_delay (self w)
         ≤ last_request_time (self w'))
    ∧ (forward elapse → clock w ≤ clock w').
Proof.
  unfold _rate_time, mbind, M_bind, datetime_now, get_self, time_sleep,
    set_last_request_time, pass_time, mret, M_ret, forward.
  cbn. case_bool_decide; cbn; eexists; (split; [reflexivity|]); cbn;
    unfold same_config; cbn; repeat split; try done; intros Hf;
    pose proof (Hf (steps w)); pose proof (Hf (S (steps w)));
    pose proof (Hf (S (S (steps w)))); lia.
Qed.

End RateLimiter.

(** ** The dispatcher *)

Lemma dispatched_same_config me me' method endpoint kwards :
same_config me me' →
dispatched me method endpoint kwards = dispatched me' method endpoint kwards.
Proof. intros (Hc & Hb & _). unfold dispatched, make_payload. by rewrite Hc, Hb. Qed.

Section Dispatcher.

Variable transport : list request → request → reply.
Variable elapse : nat → Z.

Lemma handle_requests_run method endpoint kwards w :
  method ∈ requests_functions →
  let req := dispatched (self w) method endpoint kwards in
  let o := classify (transport (sent w) req) in
  ∃ w', _handle_requests transport elapse method endpoint kwards w
          = (w', Ok (returned o))
    ∧ sent w' = sent w ++ [req]
    ∧ logs w' = logs w ++ logged o
    ∧ same_config (self w) (self w')
    ∧ (forward elapse →
       last_request_time (self w) + request_delay (self w)
         ≤ last_request_time (self w'))
    ∧ (forward elapse → last_request_time (self w') ≤ clock w').
Proof.
  intros Hm req o.
  destruct (rate_time_run elapse w)
    as (w1 & Hrun & Hsent & Hlogs & Hcfg & Hlast & Hgap & Hclk).
  unfold _handle_requests.
  rewrite (bind_ok _ _ _ _ _ Hrun).
  unfold get_self, mbind at 1, M_bind at 1.
  unfold try_except, requests_call.
  rewrite bool_decide_eq_true_2 by done.
  unfold mbind, M_bind.
  pose proof Hcfg as (Hc & Hb & Hd).
  unfold make_payload. rewrite <- Hc, <- Hb, Hsent.
  fold (make_payload (self w) kwards).
  fold (dispatched (self w) method endpoint kwards). fold req.
  subst o. destruct (transport (sent w) req) as [r | f text]; cbn [classify].
  - unfold raise_for_status. case_bool_decide.
    + cbn. eexists; split; [reflexivity|]. cbn. rewrite Hlogs.
      repeat split; try done; intros Hf; pose proof (Hgap Hf);
        pose proof (Hf (steps w1)); lia.
    + unfold response_json. destruct (body r); cbn;
        (eexists; split; [reflexivity|]); cbn; rewrite ?Hlogs, ?app_nil_r;
        repeat split; try done; intros Hf; pose proof (Hgap Hf);
        pose proof (Hf (steps w1)); lia.
  - destruct f; cbn; (eexists; split; [reflexivity|]); cbn; rewrite Hlogs;
      repeat split; try done; intros Hf; pose proof (Hgap Hf);
      pose proof (Hf (steps w1)); lia.
Qed.

(** A method name outside [requests_functions]: the limiter has run,
    nothing is sent, and [AttributeError] leaves the dispatcher. *)
Lemma handle_requests_unknown method endpoint kwards w :
  method ∉ requests_functions →
  ∃ w', _handle_requests transport elapse method endpoint kwards w
          = (w', Raise (Exn AttributeError method))
    ∧ sent w' = sent w ∧ logs w' = logs w
    ∧ same_config (self w) (self w')
    ∧ (forward elapse →
       last_request_time (self w) + request_delay (self w)
         ≤ last_request_time (self w'))
    ∧ last_request_time (self w') ≤ clock w'.
Proof.
  intros Hm.
  destruct (rate_time_run elapse w)
    as (w1 & Hrun & Hsent & Hlogs & Hcfg & Hlast & Hgap & Hclk).
  unfold _handle_requests.
  rewrite (bind_ok _ _ _ _ _ Hrun).
  unfold get_self, mbind at 1, M_bind at 1.
  unfold try_except, requests_call.
  rewrite bool_decide_eq_false_2 by done.
  cbn. exists w1. repeat split; try done; try apply Hcfg; lia.
Qed.

(** Whatever the method, a dispatch keeps the configuration and, on a
    clock that is not set back, moves [last_request_time] on by at least
    [request_delay]. *)
Lemma handle_requests_stamp method endpoint kwards w :
  let w' := exec (_handle_requests transport elapse method endpoint kwards) w in
  same_config (self w) (self w')
  ∧ (forward elapse →
     last_request_time (self w) + request_delay (self w)
       ≤ last_request_time (self w')
     ∧ last_request_time (self w') ≤ clock w').
Proof.
  unfold exec.
  destruct (decide (method ∈ requests_functions)) as [Hm|Hm].
  - destruct (handle_requests_run method endpoint kwards w Hm)
      as (w' & -> & _ & _ & ? & ? & ?); cbn; auto.
  - destruct (handle_requests_unknown method endpoint kwards w Hm)
      as (w' & -> & _ & _ & ? & ? & ?); cbn; auto.
Qed.

End Dispatcher.

(** ** The object operations *)

Lemma command_request_same_config me me' c :
same_config me me' → command_request me c = command_request me' c.
Proof. intros H. destruct c; cbn; by apply dispatched_same_config. Qed.

Lemma filter_none {A} (P : A → Prop) `{!∀ x, Decision (P x)} (l : list A) :
Forall (λ x, ¬ P x) l → filter P l = [].
Proof.
induction 1 as [|x l Hx _ IH]; [done|]. by rewrite filter_cons_False.
Qed.

Section Repository.

Variable transport : list request → request → reply.
Variable elapse : nat → Z.

Lemma post_is_function : "post" ∈ requests_functions.
Proof. by apply (bool_decide_unpack _). Qed.

Lemma get_is_function : "get" ∈ requests_functions.
Proof. by apply (bool_decide_unpack _). Qed.

(** [create_object] with keywords that are free: one request goes out,
    whatever the reply, and the call returns. *)
Lemma create_object_run object_type row column kwargs w :
  Forall (λ k, kwargs !! k = None) taken_keywords →
  ∃ w', create_object transport elapse object_type row column kwargs w
          = (w', Ok ())
    ∧ sent w' = sent w ++
        [dispatched (self w) "post" object_type
           (<["row" := PInt row]> (<["column" := PInt column]> kwargs))]
    ∧ same_config (self w) (self w')
    ∧ last (logs w')
        = Some (INFO, capitalize object_type +:+ " successfully created").
Proof.
  intros Hfree. unfold create_object.
  rewrite filter_none; last first.
  { eapply Forall_impl; [exact Hfree|]. intros k -> [? ?]. done. }
  destruct (handle_requests_run transport elapse "post" object_type
              (<["row" := PInt row]> (<["column" := PInt column]> kwargs)) w
              post_is_function) as (w1 & Hrun & Hsent & Hlogs & Hcfg & _).
  rewrite (bind_ok _ _ _ _ _ Hrun). unfold logging. cbn [self sent logs].
  eexists; split; [reflexivity|]. cbn [self sent logs].
  split; [done|]. split; [done|]. by rewrite last_snoc.
Qed.

Lemma run_command_ok c w :
  ∃ w', run_command transport elapse c w = (w', Ok ())
    ∧ sent w' = sent w ++ [command_request (self w) c]
    ∧ same_config (self w) (self w').
Proof.
  destruct c as [row column|row column color|row column direction]; cbn.
  - destruct (create_object_run "polyanets" row column ∅ w)
      as (w' & ? & ? & ? & _); [|by exists w'].
    by repeat constructor.
  - destruct (create_object_run "soloons" row column
                {[ "color" := PStr (SoloonColor_value color) ]} w)
      as (w' & ? & ? & ? & _); [|by exists w'].
    by repeat constructor.
  - destruct (create_object_run "comeths" row column
                {[ "direction" := PStr (ComethDirection_value direction) ]} w)
      as (w' & ? & ? & ? & _); [|by exists w'].
    by repeat constructor.
Qed.

(** A sequence of create commands: all go out, in order. *)
Lemma run_commands_ok cs w :
  ∃ w', for_each cs (run_command transport elapse) w = (w', Ok ())
    ∧ sent w' = sent w ++ (command_request (self w) <$> cs)
    ∧ same_config (self w) (self w').
Proof.
  revert w. induction cs as [|c cs IH]; intros w; cbn [for_each fmap list_fmap].
  - exists w. rewrite app_nil_r. split; [done|]. split; [done|].
    apply same_config_refl.
  - destruct (run_command_ok c w) as (w1 & Hrun & Hsent & Hcfg).
    destruct (IH w1) as (w2 & Hrun' & Hsent' & Hcfg').
    exists w2. rewrite (bind_ok _ _ _ _ _ Hrun). split; [done|].
    split; [|by eapply same_config_trans].
    rewrite Hsent', Hsent, <- app_assoc. cbn. do 2 f_equal.
    apply list_fmap_ext. intros _ c' _. symmetry.
    by apply command_request_same_config.
Qed.

Lemma for_each_app {A} (xs ys : list A) (body : A → M unit) w :
  for_each (xs ++ ys) body w = (for_each xs body;; for_each ys body) w.
Proof.
  revert w. induction xs as [|x xs IH]; intros w; cbn [for_each app].
  - done.
  - unfold mbind, M_bind. destruct (body x w) as [w1 [[]|e]]; [|done].
    rewrite IH. done.
Qed.

(** A loop whose body issues create commands is the sequence of them. *)
Lemma for_each_commands {A} (xs : list A) (body : A → M unit)
    (cmds : A → list command) :
  (∀ x w, body x w = for_each (cmds x) (run_command transport elapse) w) →
  ∀ w, for_each xs body w
       = for_each (xs ≫= cmds) (run_command transport elapse) w.
Proof.
  intros Hbody. induction xs as [|x xs IH]; intros w; [done|].
  cbn [for_each mbind list_bind]. rewrite for_each_app.
  unfold mbind at 1 2, M_bind. rewrite Hbody.
  destruct (for_each (cmds x) _ w) as [w1 [[]|e]]; [|done]. apply IH.
Qed.

Lemma cross_body i w :
  (if i =? 5 then create_polyanet transport elapse i i
   else if (i >=? 2) && (i <=? 8) then
     create_polyanet transport elapse i i;;
     create_polyanet transport elapse i (10 - i)
   else mret ()) w
  = for_each (cross_commands i) (run_command transport elapse) w.
Proof.
  unfold cross_commands.
  destruct (i =? 5); [|destruct ((i >=? 2) && (i <=? 8))];
    cbn [for_each run_command]; unfold mbind, M_bind, mret, M_ret.
  - by destruct (create_polyanet _ _ _ _ _) as [w1 [[]|e]].
  - destruct (create_polyanet _ _ i i w) as [w1 [[]|e]]; [|done].
    by destruct (create_polyanet _ _ _ _ _) as [w2 [[]|e]].
  - done.
Qed.

End Repository.

(** ** The cross *)

(** C1, as amended.  [create_polyanet_cross] returns after placing exactly
    13 distinct points: (i,i) for every i in [2,8] and (i,10-i) for every
    i in [2,8] other than 5.  Rows 0, 1, 9 and 10 get no point. *)
Theorem create_polyanet_cross_points transport elapse w :
  ∃ w', create_polyanet_cross transport elapse w = (w', Ok ())
    ∧ sent w' = sent w ++
        ((λ p, command_request (self w) (CreatePoint p.1 p.2))
           <$> cross_positions)
    ∧ length cross_positions = 13%nat
    ∧ NoDup cross_positions
    ∧ ∀ r c, (r, c) ∈ cross_positions ↔ 2 ≤ r ≤ 8 ∧ (c = r ∨ c = 10 - r).
Proof.
  destruct (run_commands_ok transport elapse
              ((λ p, CreatePoint p.1 p.2) <$> cross_positions) w)
    as (w' & Hrun & Hsent & _).
  exists w'. split; [|split; [|split; [|split]]].
  - unfold create_polyanet_cross.
    rewrite (for_each_commands transport elapse _ _ cross_commands)
      by (intros; apply cross_body).
    exact Hrun.
  - rewrite Hsent. by rewrite <- list_fmap_compose.
  - done.
  - by apply (bool_decide_unpack _).
  - intros r c. unfold cross_positions. rewrite !elem_of_cons, elem_of_nil.
    split.
    + intros H. repeat (destruct H as [H|H]; [injection H as -> ->; lia|]).
      done.
    + intros [Hr Hc].
      assert (r = 2 ∨ r = 3 ∨ r = 4 ∨ r = 5 ∨ r = 6 ∨ r = 7 ∨ r = 8)
        as Hcases by lia.
      destruct Hc as [-> | ->];
        repeat (destruct Hcases as [->|Hcases]; [cbn; tauto|]);
        subst r; cbn; tauto.
Qed.

(** C1 as stated fails: a run places 13 points, not 17, and none at (0,0). *)
Lemma create_polyanet_cross_not_17 :
  let placed :=
    sent (exec (create_polyanet_cross (demo_transport []) no_delay) demo_world)
  in length placed ≠ 17%nat
     ∧ command_request demo_api (CreatePoint 0 0) ∉ placed.
Proof.
  split.
  - by vm_compute.
  - apply (bool_decide_unpack _). by vm_compute.
Qed.

(** ** The goal-map builder *)

Section Builder.

Variable transport : list request → request → reply.
Variable elapse : nat → Z.

(** The loop body does to a label what [interpret] says. *)
Lemma visit_interpret i j label w :
  match interpret i j label with
  | Skip => visit transport elapse i j (JStr label) w = (w, Ok Continue)
  | Place c =>
      ∃ w', visit transport elapse i j (JStr label) w = (w', Ok Continue)
        ∧ sent w' = sent w ++ [command_request (self w) c]
        ∧ same_config (self w) (self w')
  | Reject text =>
      ∃ w', visit transport elapse i j (JStr label) w = (w', Ok Return)
        ∧ sent w' = sent w ∧ self w' = self w
        ∧ logs w' = logs w ++ [(ERROR, "Invalid Soloon direction: " +:+ text)]
  | Crash e => visit transport elapse i j (JStr label) w = (w, Raise e)
  end.
Proof.
  unfold interpret, visit, equals_str.
  destruct (decide (label = "SPACE")) as [->|H1]; [done|].
  rewrite (bool_decide_eq_false_2 _ H1).
  destruct (decide (label = "POLYANET")) as [H2|H2].
  { rewrite (bool_decide_eq_true_2 _ H2).
    destruct (run_command_ok transport elapse
                (CreatePoint (Z.of_nat i) (Z.of_nat j)) w)
      as (w' & Hrun & ? & ?).
    exists w'. cbn in Hrun.
    by rewrite (bind_ok _ _ _ _ _ Hrun). }
  rewrite (bool_decide_eq_false_2 _ H2).
  unfold split_item.
  destruct (split "_" label) as [|first [|second rest]]; [done..|].
  cbn [lookup list_lookup].
  destruct (decide (second = "COMETH")) as [Hc|Hc];
    [destruct (ComethDirection_member first) as [d|] eqn:Hm
    |destruct (SoloonColor_member first) as [c|] eqn:Hm].
  - destruct (run_command_ok transport elapse
                (CreateDirectionMarker (Z.of_nat i) (Z.of_nat j) d) w)
      as (w' & Hrun & ? & ?).
    exists w'. cbn [run_command] in Hrun.
    unfold lift, mbind, M_bind. cbv beta iota.
    rewrite (bool_decide_eq_true_2 _ Hc).
    unfold attribute_or_return, try_except, getattr_ComethDirection_value,
      lift, mbind, M_bind, mret, M_ret.
    rewrite Hm. cbv beta iota. by rewrite Hrun.
  - exists {| self := self w; clock := clock w; steps := steps w;
              sent := sent w;
              logs := logs w ++
                [(ERROR, "Invalid Soloon direction: " +:+ first)] |}.
    unfold lift, mbind, M_bind. cbv beta iota.
    rewrite (bool_decide_eq_true_2 _ Hc).
    unfold attribute_or_return, try_except, getattr_ComethDirection_value,
      lift, mbind, M_bind, mret, M_ret.
    rewrite Hm. by cbv beta iota.
  - destruct (run_command_ok transport elapse
                (CreateColorMarker (Z.of_nat i) (Z.of_nat j) c) w)
      as (w' & Hrun & ? & ?).
    exists w'. cbn [run_command] in Hrun.
    unfold lift, mbind, M_bind. cbv beta iota.
    rewrite (bool_decide_eq_false_2 _ Hc).
    unfold attribute_or_return, try_except, getattr_SoloonColor_value,
      lift, mbind, M_bind, mret, M_ret.
    rewrite Hm. cbv beta iota. by rewrite Hrun.
  - exists {| self := self w; clock := clock w; steps := steps w;
              sent := sent w;
              logs := logs w ++
                [(ERROR, "Invalid Soloon direction: " +:+ first)] |}.
    unfold lift, mbind, M_bind. cbv beta iota.
    rewrite (bool_decide_eq_false_2 _ Hc).
    unfold attribute_or_return, try_except, getattr_SoloonColor_value,
      lift, mbind, M_bind, mret, M_ret.
    rewrite Hm. by cbv beta iota.
Qed.

Lemma plan_app cells cells' :
  plan (cells ++ cells')
  = match (plan cells).2 with
    | Completed => ((plan cells).1 ++ (plan cells').1, (plan cells').2)
    | _ => plan cells
    end.
Proof.
  induction cells as [|[[i j] label] cells IH]; cbn [plan app].
  - by destruct (plan cells').
  - destruct (interpret i j label); [done| |done..].
    rewrite IH. cbn [fst snd]. by destruct (plan cells) as [cs []].
Qed.

(** The inner loop issues the commands of [plan], and ends as it says. *)
Lemma for_columns_plan i j row w :
  ∃ w', for_columns transport elapse i j (JStr <$> row) w
          = (w', loop_result (plan (row_cells i j row)).2)
    ∧ sent w' = sent w ++
        (command_request (self w) <$> (plan (row_cells i j row)).1)
    ∧ same_config (self w) (self w')
    ∧ ∀ text, (plan (row_cells i j row)).2 = Aborted text →
        last (logs w') = Some (invalid_attribute text).
Proof.
  revert j w. induction row as [|label row IH]; intros j w.
  - exists w. cbn. rewrite app_nil_r. repeat split; done.
  - cbn [fmap list_fmap for_columns row_cells plan].
    pose proof (visit_interpret i j label w) as Hvisit.
    destruct (interpret i j label) as [|c|text|e].
    + rewrite (bind_ok _ _ _ _ _ Hvisit). apply IH.
    + destruct Hvisit as (w1 & Hvisit & Hsent & Hcfg).
      rewrite (bind_ok _ _ _ _ _ Hvisit).
      destruct (IH (S j) w1) as (w2 & Hrun & Hsent' & Hcfg' & Hlog).
      exists w2. cbn [fst snd]. split; [done|]. split; [|split; [|done]].
      * rewrite Hsent', Hsent, <- app_assoc. cbn. do 2 f_equal.
        apply list_fmap_ext. intros _ c' _. symmetry.
        by apply command_request_same_config.
      * by eapply same_config_trans.
    + destruct Hvisit as (w1 & Hvisit & Hsent & Hself & Hlog).
      rewrite (bind_ok _ _ _ _ _ Hvisit).
      exists w1. cbn. rewrite app_nil_r, Hself. repeat split; try done.
      intros text' [= <-]. by rewrite Hlog, last_snoc.
    + rewrite (bind_raise _ _ _ _ _ Hvisit).
      exists w. cbn. rewrite app_nil_r. repeat split; done.
Qed.

(** So does the outer loop. *)
Lemma for_rows_plan i grid w :
  ∃ w', for_rows transport elapse i
          ((λ row, JArr (JStr <$> row)) <$> grid) w
          = (w', loop_result (plan (grid_cells i grid)).2)
    ∧ sent w' = sent w ++
        (command_request (self w) <$> (plan (grid_cells i grid)).1)
    ∧ same_config (self w) (self w')
    ∧ ∀ text, (plan (grid_cells i grid)).2 = Aborted text →
        last (logs w') = Some (invalid_attribute text).
Proof.
  revert i w. induction grid as [|row grid IH]; intros i w.
  - exists w. cbn. rewrite app_nil_r. repeat split; done.
  - cbn [fmap list_fmap for_rows grid_cells iterate].
    unfold lift at 1. unfold mbind at 1, M_bind at 1.
    destruct (for_columns_plan i 0 row w) as (w1 & Hrun & Hsent & Hcfg & Hlog).
    rewrite plan_app.
    destruct (plan (row_cells i 0 row)) as [cs [|text|e]]; cbn [fst snd] in *.
    + rewrite (bind_ok _ _ _ _ _ Hrun).
      destruct (IH (S i) w1) as (w2 & Hrun' & Hsent' & Hcfg' & Hlog').
      exists w2. split; [done|]. split; [|split; [|done]].
      * rewrite Hsent', Hsent, <- app_assoc, fmap_app. do 2 f_equal.
        apply list_fmap_ext. intros _ c' _. symmetry.
        by apply command_request_same_config.
      * by eapply same_config_trans.
    + rewrite (bind_ok _ _ _ _ _ Hrun). by exists w1.
    + rewrite (bind_raise _ _ _ _ _ Hrun). by exists w1.
Qed.

(** The fetch of the goal map: one request, and the classified reply. *)
Lemma goal_map_run w :
  let o := classify (transport (sent w) (goal_request (self w))) in
  ∃ w', goal_map transport elapse w = (w', Ok (returned o))
    ∧ sent w' = sent w ++ [goal_request (self w)]
    ∧ logs w' = logs w ++ logged o
    ∧ same_config (self w) (self w').
Proof.
  intros o. unfold goal_map, get_self, mbind, M_bind.
  destruct (handle_requests_run transport elapse "get"
              ("map/" +:+ candidate_id (self w) +:+ "/goal") ∅ w
              get_is_function) as (w' & ? & ? & ? & ? & _).
  by exists w'.
Qed.

(** The whole build, when the goal endpoint serves [grid]: the fetch,
    then the commands of [plan] over the cells in row-major order. *)
Lemma build_run grid w :
  serves_goal transport w grid →
  ∃ w', create_crossmint_logo transport elapse w
          = (w', build_result (plan (row_major grid)).2)
    ∧ sent w' = sent w ++ goal_request (self w) ::
        (command_request (self w) <$> (plan (row_major grid)).1)
    ∧ same_config (self w) (self w')
    ∧ ∀ text, (plan (row_major grid)).2 = Aborted text →
        last (logs w') = Some (invalid_attribute text).
Proof.
  intros Hserve. unfold serves_goal in Hserve.
  destruct (goal_map_run w) as (w1 & Hrun & Hsent & _ & Hcfg).
  cbv zeta in Hrun. rewrite Hserve in Hrun.
  unfold create_crossmint_logo. rewrite (bind_ok _ _ _ _ _ Hrun).
  unfold goal_response, grid_json. cbn [getitem].
  rewrite decide_True by done.
  unfold lift, mbind at 1 2, M_bind at 1 2, iterate. cbv beta iota.
  destruct (for_rows_plan 0 grid w1) as (w2 & Hrows & Hsent' & Hcfg' & Hlog).
  fold (row_major grid) in *.
  exists w2. split; [|split; [|split; [|done]]].
  - destruct (plan (row_major grid)) as [cs [|text|e]];
      cbn [fst snd loop_result build_result] in *.
    + by rewrite (bind_ok _ _ _ _ _ Hrows).
    + by rewrite (bind_ok _ _ _ _ _ Hrows).
    + by rewrite (bind_raise _ _ _ _ _ Hrows).
  - rewrite Hsent', Hsent, <- app_assoc. cbn [app]. do 2 f_equal.
    apply list_fmap_ext. intros _ c' _. symmetry.
    by apply command_request_same_config.
  - by eapply same_config_trans.
Qed.

End Builder.

(** ** Labels *)

Lemma direction_member_names name :
  is_Some (ComethDirection_member name) ↔ name ∈ direction_names.
Proof.
  unfold ComethDirection_member, direction_names.
  rewrite !elem_of_cons, elem_of_nil.
  repeat case_decide; split; intros Hname; eauto; try tauto.
  by destruct Hname as [? [=]].
Qed.

Lemma color_member_names name :
  is_Some (SoloonColor_member name) ↔ name ∈ color_names.
Proof.
  unfold SoloonColor_member, color_names.
  rewrite !elem_of_cons, elem_of_nil.
  repeat case_decide; split; intros Hname; eauto; try tauto.
  by destruct Hname as [? [=]].
Qed.

(** Labels in one part stand apart from labels in two. *)
Lemma unrecognized_not_plain label :
  unrecognized label = true → label ≠ "SPACE" ∧ label ≠ "POLYANET".
Proof. intros H. split; intros ->; vm_compute in H; discriminate. Qed.

Lemma interpret_unrecognized i j label :
  unrecognized label = true →
  interpret i j label = Reject (attribute_segment label).
Proof.
  intros H. destruct (unrecognized_not_plain _ H) as [H1 H2].
  unfold interpret, unrecognized, attribute_segment in *.
  rewrite !decide_False by done.
  destruct (split "_" label) as [|first [|second rest]]; [done..|].
  cbn [head default].
  destruct (decide (second = "COMETH")); apply bool_decide_eq_true_1 in H.
  - rewrite <- direction_member_names in H.
    destruct (ComethDirection_member first); [|done]. by destruct H.
  - rewrite <- color_member_names in H.
    destruct (SoloonColor_member first); [|done]. by destruct H.
Qed.

Lemma interpret_well_formed i j label :
  well_formed label = true →
  (label = "SPACE" ∧ interpret i j label = Skip)
  ∨ (label ≠ "SPACE" ∧ ∃ c, interpret i j label = Place c).
Proof.
  intros H. unfold interpret, well_formed in *.
  destruct (decide (label = "SPACE")) as [->|H1]; [by left|right].
  split; [done|].
  destruct (decide (label = "POLYANET")) as [->|H2]; [by eexists|].
  rewrite !bool_decide_eq_false_2 in H by done. cbn [orb] in H.
  destruct (split "_" label) as [|first [|second rest]]; [done..|].
  destruct (decide (second = "COMETH")); apply bool_decide_eq_true_1 in H.
  - apply direction_member_names in H as [d ->]. by eexists.
  - apply color_member_names in H as [c ->]. by eexists.
Qed.

(** ** Passes over cells *)

Lemma plan_well_formed cells :
  Forall (λ cell, well_formed cell.2 = true) cells →
  plan cells = (omap placement cells, Completed).
Proof.
  induction 1 as [|[[i j] label] cells Hwf _ IH]; [done|].
  cbn [plan omap list_omap]. unfold placement at 1. cbn [fst snd] in *.
  destruct (interpret_well_formed i j label Hwf) as [[_ ->]|[_ [c ->]]];
    by rewrite IH.
Qed.

Lemma plan_first_unrecognized pre i j label post :
  Forall (λ cell, well_formed cell.2 = true) pre →
  unrecognized label = true →
  plan (pre ++ (i, j, label) :: post)
  = (omap placement pre, Aborted (attribute_segment label)).
Proof.
  intros Hpre Hbad. rewrite plan_app, (plan_well_formed pre Hpre).
  cbn [fst snd plan]. rewrite (interpret_unrecognized i j label Hbad).
  by rewrite app_nil_r.
Qed.

(** Whatever the labels, what is issued stands for an initial stretch of
    the cells. *)
Lemma plan_prefix cells :
  ∃ n, (plan cells).1 = omap placement (take n cells).
Proof.
  induction cells as [|[[i j] label] cells [n IH]]; [by exists 0%nat|].
  cbn [plan]. destruct (interpret i j label) as [|c|text|e] eqn:Hi.
  - exists (S n). cbn [take omap list_omap]. unfold placement at 1.
    cbn [fst snd]. by rewrite Hi.
  - exists (S n). cbn [take omap list_omap fst]. unfold placement at 1.
    cbn [fst snd]. by rewrite Hi, IH.
  - by exists 0%nat.
  - by exists 0%nat.
Qed.

Lemma placement_space i j : placement (i, j, "SPACE") = None.
Proof. done. Qed.

Lemma row_cells_well_formed i j row :
  Forall (λ label, well_formed label = true) row →
  Forall (λ cell, well_formed cell.2 = true) (row_cells i j row).
Proof.
  intros H. revert j. induction H; intros j; cbn [row_cells]; by constructor.
Qed.

Lemma grid_cells_well_formed i grid :
  Forall (Forall (λ label, well_formed label = true)) grid →
  Forall (λ cell, well_formed cell.2 = true) (grid_cells i grid).
Proof.
  intros H. revert i. induction H; intros i; cbn [grid_cells]; [done|].
  apply Forall_app. split; [by apply row_cells_well_formed|done].
Qed.

(** Over well-formed cells, the commands are as many as the cells that
    are not SPACE. *)
Lemma placement_count cells :
  Forall (λ cell, well_formed cell.2 = true) cells →
  length (omap placement cells)
  = length (filter (λ cell, cell.2 ≠ "SPACE") cells).
Proof.
  induction 1 as [|[[i j] label] cells Hwf _ IH]; [done|].
  cbn [omap list_omap]. unfold placement at 1. cbn [fst snd] in *.
  destruct (interpret_well_formed i j label Hwf) as [[-> ->]|[Hl [c ->]]].
  - by rewrite filter_cons_False by (cbn; tauto).
  - rewrite filter_cons_True by done. cbn. by rewrite IH.
Qed.

(** ** Minimum gap between dispatches *)

Lemma dispatch_all_gaps transport elapse calls w :
  forward elapse →
  Forall (λ gap, request_delay (self w) ≤ gap)
    (gaps (stamps (w :: dispatch_all transport elapse calls w))).
Proof.
  intros Hf. revert w.
  induction calls as [|c calls IH]; intros w; [by constructor|].
  cbn [dispatch_all].
  destruct (handle_requests_stamp transport elapse (call_method c)
              (call_endpoint c) (call_fields c) w) as ((_ & _ & Hd) & Htime).
  destruct (Htime Hf) as [Hgap _].
  set (w' := exec _ w) in *.
  change (stamps (w :: w' :: ?ws)) with
    (last_request_time (self w) :: stamps (w' :: ws)).
  cbn [stamps fmap list_fmap gaps]. constructor; [lia|].
  rewrite Hd. apply IH.
Qed.

Lemma dispatch_all_stamped transport elapse calls w :
  forward elapse →
  Forall (λ w', last_request_time (self w') ≤ clock w')
    (dispatch_all transport elapse calls w).
Proof.
  intros Hf. revert w.
  induction calls as [|c calls IH]; intros w; [by constructor|].
  cbn [dispatch_all]. constructor; [|apply IH].
  by apply handle_requests_stamp.
Qed.

(** With the timestamp not after the clock, the limiter never asks for a
    sleep longer than [request_delay]. *)
Lemma dispatch_all_sleeps transport elapse calls w :
  forward elapse →
  last_request_time (self w) ≤ clock w →
  Forall (λ w', requested_sleep elapse w' ≤ request_delay (self w))
    (w :: dispatch_all transport elapse calls w).
Proof.
  intros Hf. revert w.
  induction calls as [|c calls IH]; intros w Hw.
  - constructor; [|done]. unfold requested_sleep.
    pose proof (Hf (steps w)). lia.
  - constructor.
    + unfold requested_sleep. pose proof (Hf (steps w)). lia.
    + cbn [dispatch_all].
      destruct (handle_requests_stamp transport elapse (call_method c)
                  (call_endpoint c) (call_fields c) w)
        as ((_ & _ & Hd) & Htime).
      destruct (Htime Hf) as [_ Hclock].
      rewrite Hd. by apply IH.
Qed.

(** C4, as amended.  On a clock that is not set back, starting with the
    timestamp not after the clock, and for every delay within the range
    of [time.sleep] (below 2^63 ns): for every sequence of dispatched
    calls, the timestamps recorded by consecutive calls (and by the
    construction and the first call) are at least [request_delay] apart,
    and no sleep the limiter asks for leaves the range of [time.sleep].
    The limiter takes the timestamp when it returns, after any wait and
    before the request is sent: it is the reading of the clock at that
    moment, so the interval runs from the release of one request to the
    release of the next. *)
Theorem consecutive_stamps_apart transport elapse calls w :
  forward elapse →
  last_request_time (self w) ≤ clock w →
  request_delay (self w) * 1000 < sleep_limit →
  Forall (λ gap, request_delay (self w) ≤ gap)
    (gaps (stamps (w :: dispatch_all transport elapse calls w)))
  ∧ Forall (λ w', last_request_time (self w') ≤ clock w')
      (dispatch_all transport elapse calls w)
  ∧ Forall (λ w', requested_sleep elapse w' * 1000 < sleep_limit)
      (w :: dispatch_all transport elapse calls w)
  ∧ ∃ w1, _rate_time elapse w = (w1, Ok ())
      ∧ last_request_time (self w1) = clock w1
      ∧ clock w ≤ clock w1
      ∧ last_request_time (self w) + request_delay (self w) ≤ clock w1.
Proof.
  intros Hf Hw Hrange.
  split; [by apply dispatch_all_gaps|].
  split; [by apply dispatch_all_stamped|]. split.
  - eapply Forall_impl;
      [by apply (dispatch_all_sleeps transport elapse calls w)|].
    intros w' Hsleep. cbn in Hsleep. lia.
  - destruct (rate_time_run elapse w)
      as (w1 & ? & _ & _ & _ & Hlast & Hgap & Hclock).
    specialize (Hgap Hf). specialize (Hclock Hf).
    exists w1. rewrite <- Hlast. repeat split; try done; lia.
Qed.

Lemma consecutive_stamps_apart_witness :
  forward no_delay
  ∧ last_request_time (self demo_world) ≤ clock demo_world
  ∧ request_delay (self demo_world) * 1000 < sleep_limit
  ∧ Forall (λ gap, 600000 ≤ gap)
      (gaps (stamps (demo_world ::
                     dispatch_all dead_transport no_delay [ping; ping]
                       demo_world))).
Proof.
  split; [by intros n|]. split; [done|]. split; [done|].
  apply (consecutive_stamps_apart dead_transport no_delay [ping; ping]
           demo_world); [by intros n|done|done].
Defined.

(** When the wall clock is set back by an hour during the first sleep,
    the first timestamp lies before the one of the construction. *)
Example stamps_on_clock_set_back :
  stamps (demo_world :: dispatch_all dead_transport clock_set_back [ping]
                          demo_world)
  = [0; -3599400000].
Proof. by vm_compute. Qed.

Example stamps_of_two_calls :
  stamps (demo_world :: dispatch_all dead_transport no_delay [ping; ping]
                          demo_world)
  = [0; 600000; 1200000].
Proof. by vm_compute. Qed.

(** C4 as stated fails: the first call returns at 1.1 s, once its slow
    request is over, and the second at 1.2 s, so that the two completions
    are 0.1 s apart under a delay of 0.6 s; the timestamps are 0.6 s and
    1.2 s. *)
Lemma completions_closer_than_delay :
  let ws := dispatch_all dead_transport slow_first_request [ping; ping]
              demo_world in
  clock <$> ws = [1100000; 1200000]
  ∧ stamps ws = [600000; 1200000]
  ∧ gaps (clock <$> ws) = [100000]
  ∧ 100000 < request_delay (self demo_world).
Proof. repeat split; by vm_compute. Qed.

(** ** Faults at the dispatcher *)

(** C5, as amended.  For every method that names a function of [requests]
    (get, post, put, patch, delete, head, options), every endpoint and every
    field mapping, the dispatcher returns and raises nothing: an HTTP error
    status, a connection failure, a timeout and any other request fault,
    a body that is not JSON among them, is logged once as an error and
    answered with [None]; a response without an error status returns its
    decoded body and logs nothing. *)
Theorem dispatch_absorbs_faults transport elapse method endpoint kwards w :
  method ∈ requests_functions →
  let rep := transport (sent w) (dispatched (self w) method endpoint kwards) in
  ∃ w', _handle_requests transport elapse method endpoint kwards w
          = (w', Ok (returned (classify rep)))
    ∧ logs w' = logs w ++ logged (classify rep)
    ∧ (∀ r v, rep = Response r → ¬ 400 ≤ status_code r < 600 →
         body r = Some v →
         returned (classify rep) = v ∧ logged (classify rep) = [])
    ∧ ((∀ v, classify rep ≠ Success v) →
         returned (classify rep) = JNull
         ∧ ∃ text, logged (classify rep) = [(ERROR, text)]).
Proof.
  intros Hm rep.
  destruct (handle_requests_run transport elapse method endpoint kwards w Hm)
    as (w' & Hrun & _ & Hlogs & _).
  exists w'. split; [done|]. split; [done|]. split.
  - intros r v -> Hstatus Hbody. cbn [classify].
    by rewrite (bool_decide_eq_false_2 _ Hstatus), Hbody.
  - intros Hfail. destruct (classify rep) as [v|status message|[] message];
      cbn [returned logged]; [by destruct (Hfail v)|eauto..].
Qed.

Lemma dispatch_absorbs_faults_witness :
  "post" ∈ requests_functions
  ∧ ∃ w', _handle_requests dead_transport no_delay "post" "polyanets" ∅
            demo_world
          = (w', Ok JNull)
      ∧ logs w' = [(ERROR, "Error Connecting: Connection refused")].
Proof.
  split; [by apply (bool_decide_unpack _)|].
  destruct (dispatch_absorbs_faults dead_transport no_delay
              "post" "polyanets" ∅ demo_world)
    as (w' & Hrun & Hlogs & _); [by apply (bool_decide_unpack _)|].
  exists w'. split; [exact Hrun|exact Hlogs].
Defined.

(** C5 as stated fails: a method that [requests] has no function for makes
    the dispatcher raise [AttributeError], which no handler catches. *)
Lemma dispatch_raises_on_unknown_method :
  result (_handle_requests dead_transport no_delay "trace" "polyanets" ∅)
    demo_world
  = Raise (Exn AttributeError "trace").
Proof. by vm_compute. Qed.

(** ** The request body *)

(** C6, as amended.  The body of every dispatched request is the
    [candidateId] entry overwritten by the caller's fields: [candidateId]
    is always present, every field of the caller is carried with its value,
    and [candidateId] holds the configured candidate id whenever the caller
    supplies no field of that name. *)
Theorem payload_carries_candidate_id transport elapse method endpoint
    (kwards : gmap string pyval) w :
  method ∈ requests_functions →
  ∃ r, sent (exec (_handle_requests transport elapse method endpoint kwards) w)
       = sent w ++ [r]
    ∧ is_Some (req_data r !! "candidateId")
    ∧ (∀ k v, kwards !! k = Some v → req_data r !! k = Some v)
    ∧ (∀ k, k ≠ "candidateId" → req_data r !! k = kwards !! k)
    ∧ (kwards !! "candidateId" = None →
         req_data r !! "candidateId" = Some (PStr (candidate_id (self w)))).
Proof.
  intros Hm.
  destruct (handle_requests_run transport elapse method endpoint kwards w Hm)
    as (w' & Hrun & Hsent & _).
  exists (dispatched (self w) method endpoint kwards).
  unfold exec. rewrite Hrun. split; [done|].
  cbn [dispatched req_data]. unfold make_payload. split; [|split; [|split]].
  - rewrite lookup_union. destruct (kwards !! "candidateId"); by
      rewrite lookup_singleton_eq.
  - intros k v Hk. by apply lookup_union_Some_l.
  - intros k Hk. rewrite lookup_union, lookup_singleton_ne by done.
    by destruct (kwards !! k).
  - intros Hk. rewrite lookup_union_r by done. apply lookup_singleton_eq.
Qed.

Lemma payload_carries_candidate_id_witness :
  "post" ∈ requests_functions
  ∧ ∃ r, sent (exec (_handle_requests dead_transport no_delay "post"
                       "polyanets" {[ "row" := PInt 3 ]}) demo_world) = [r]
      ∧ req_data r !! "row" = Some (PInt 3)
      ∧ req_data r !! "candidateId" = Some (PStr "c-1").
Proof.
  split; [by apply (bool_decide_unpack _)|].
  destruct (payload_carries_candidate_id dead_transport no_delay
              "post" "polyanets" {[ "row" := PInt 3 ]} demo_world)
    as (r & Hsent & _ & Hfields & _ & Hid); [by apply (bool_decide_unpack _)|].
  exists r. split; [exact Hsent|]. split.
  - apply Hfields. reflexivity.
  - apply Hid. reflexivity.
Defined.

(** C6 as stated fails: a field named [candidateId] replaces the
    configured candidate id in the body. *)
Lemma candidate_id_overridden :
  candidate_id demo_api = "c-1"
  ∧ ∃ r, sent (exec (_handle_requests dead_transport no_delay "post"
                       "polyanets" {[ "candidateId" := PStr "intruder" ]})
                 demo_world) = [r]
      ∧ req_data r !! "candidateId" = Some (PStr "intruder").
Proof. split; [done|]. eexists. split; by vm_compute. Qed.

(** ** Repeated creates *)

(** C9.  Creates are not deduplicated: for every create command, at any
    position, issuing it twice sends two requests, one per call, and the
    two are the same request. *)
Theorem create_twice_sends_twice transport elapse c w :
  ∃ w', (run_command transport elapse c;; run_command transport elapse c) w
          = (w', Ok ())
    ∧ sent w' = sent w ++
        [command_request (self w) c; command_request (self w) c].
Proof.
  destruct (run_command_ok transport elapse c w) as (w1 & Hrun & Hsent & Hcfg).
  destruct (run_command_ok transport elapse c w1) as (w2 & Hrun' & Hsent' & _).
  exists w2. rewrite (bind_ok _ _ _ _ _ Hrun). split; [done|].
  rewrite Hsent', Hsent, <- app_assoc.
  by rewrite <- (command_request_same_config _ _ c Hcfg).
Qed.

(** ** The build *)

(** C7, as amended.  For every fetch result that is not a dict (the fetch
    failed and the dispatcher answered [None], or the body is some other
    JSON value), the build returns silently after the fetch: no creation
    request is sent, nothing is raised, and the log gets only what the
    dispatcher wrote about the fetch. *)
Theorem build_silent_without_dict transport elapse w :
  is_dict (returned (classify (transport (sent w) (goal_request (self w)))))
  = false →
  ∃ w', create_crossmint_logo transport elapse w = (w', Ok ())
    ∧ sent w' = sent w ++ [goal_request (self w)]
    ∧ logs w' = logs w ++
        logged (classify (transport (sent w) (goal_request (self w)))).
Proof.
  intros Hdict.
  destruct (goal_map_run transport elapse w) as (w1 & Hrun & Hsent & Hlogs & _).
  cbv zeta in Hrun, Hlogs.
  exists w1. unfold create_crossmint_logo. rewrite (bind_ok _ _ _ _ _ Hrun).
  split; [|done].
  by destruct (returned (classify (transport (sent w) (goal_request (self w))))).
Qed.

Lemma build_silent_without_dict_witness :
  is_dict (returned (classify (dead_transport (sent demo_world)
                                 (goal_request (self demo_world))))) = false
  ∧ ∃ w', create_crossmint_logo dead_transport no_delay demo_world = (w', Ok ())
      ∧ sent w' = sent demo_world ++ [goal_request (self demo_world)].
Proof.
  split; [reflexivity|].
  destruct (build_silent_without_dict dead_transport no_delay demo_world)
    as (w' & Hrun & Hsent & _); [reflexivity|].
  exists w'. split; [exact Hrun|exact Hsent].
Defined.

(** C7 as stated fails: a fetched dict without a "goal" entry is no goal
    grid, and the build raises [KeyError] on it. *)
Lemma build_raises_without_goal :
  returned (classify (constant_transport (JObj []) (sent demo_world)
                        (goal_request (self demo_world)))) = JObj []
  ∧ result (create_crossmint_logo (constant_transport (JObj []) ) no_delay)
      demo_world
    = Raise (Exn KeyError "goal").
Proof. split; by vm_compute. Qed.

(** C2.  When the goal endpoint serves the example grid, the build sends,
    after the fetch, exactly the requests of createPoint(0,1),
    createColorMarker(1,0,RED) and createDirectionMarker(1,1,UP), in that
    order, and nothing for cell (0,0).  For every grid, the creation
    requests are those of an initial stretch of the cells taken in
    row-major order, and a SPACE cell stands for no request. *)
Theorem build_example_in_row_major_order transport elapse w :
  (serves_goal transport w example_grid →
   ∃ w', create_crossmint_logo transport elapse w = (w', Ok ())
     ∧ sent w' = sent w ++
         [goal_request (self w);
          command_request (self w) (CreatePoint 0 1);
          command_request (self w) (CreateColorMarker 1 0 RED);
          command_request (self w) (CreateDirectionMarker 1 1 UP)])
  ∧ (∀ grid, serves_goal transport w grid →
     ∃ n, sent (exec (create_crossmint_logo transport elapse) w)
          = sent w ++ goal_request (self w) ::
              (command_request (self w)
                 <$> omap placement (take n (row_major grid))))
  ∧ (∀ i j, placement (i, j, "SPACE") = None).
Proof.
  split; [|split].
  - intros Hserve.
    destruct (build_run transport elapse example_grid w Hserve)
      as (w' & Hrun & Hsent & _).
    exists w'. split; [exact Hrun|exact Hsent].
  - intros grid Hserve.
    destruct (build_run transport elapse grid w Hserve)
      as (w' & Hrun & Hsent & _).
    destruct (plan_prefix (row_major grid)) as [n Hn].
    exists n. unfold exec. rewrite Hrun. cbn [fst]. by rewrite Hsent, Hn.
  - apply placement_space.
Qed.

Lemma build_example_in_row_major_order_witness :
  serves_goal (demo_transport example_grid) demo_world example_grid
  ∧ ∃ w', create_crossmint_logo (demo_transport example_grid) no_delay
            demo_world = (w', Ok ())
      ∧ sent w' =
          [goal_request demo_api;
           command_request demo_api (CreatePoint 0 1);
           command_request demo_api (CreateColorMarker 1 0 RED);
           command_request demo_api (CreateDirectionMarker 1 1 UP)].
Proof.
  split; [reflexivity|].
  apply (proj1 (build_example_in_row_major_order
                  (demo_transport example_grid) no_delay demo_world)).
  reflexivity.
Defined.

(** C3.  When the build reaches the first label whose attribute is not
    recognized (every cell before it, in row-major order, being well
    formed), it logs the error and returns at once: the cells before have
    got their requests, one for each that is not SPACE, and no cell at or
    after the position gets any.  In particular a grid that starts with
    "PURPLE_SOLOON" and "BOGUS_COMETH" gets the Soloon at (0,0) and
    nothing more. *)
Theorem build_aborts_at_first_unrecognized transport elapse w :
  (∀ grid pre i j label post,
     serves_goal transport w grid →
     row_major grid = pre ++ (i, j, label) :: post →
     Forall (λ cell, well_formed cell.2 = true) pre →
     unrecognized label = true →
     ∃ w', create_crossmint_logo transport elapse w = (w', Ok ())
       ∧ sent w' = sent w ++ goal_request (self w) ::
           (command_request (self w) <$> omap placement pre)
       ∧ length (omap placement pre)
         = length (filter (λ cell, cell.2 ≠ "SPACE") pre)
       ∧ last (logs w')
         = Some (invalid_attribute (attribute_segment label)))
  ∧ (∀ row rows,
     serves_goal transport w (("PURPLE_SOLOON" :: "BOGUS_COMETH" :: row) :: rows) →
     ∃ w', create_crossmint_logo transport elapse w = (w', Ok ())
       ∧ sent w' = sent w ++
           [goal_request (self w);
            command_request (self w) (CreateColorMarker 0 0 PURPLE)]
       ∧ last (logs w') = Some (invalid_attribute "BOGUS")).
Proof.
  assert (∀ grid pre i j label post,
     serves_goal transport w grid →
     row_major grid = pre ++ (i, j, label) :: post →
     Forall (λ cell, well_formed cell.2 = true) pre →
     unrecognized label = true →
     ∃ w', create_crossmint_logo transport elapse w = (w', Ok ())
       ∧ sent w' = sent w ++ goal_request (self w) ::
           (command_request (self w) <$> omap placement pre)
       ∧ length (omap placement pre)
         = length (filter (λ cell, cell.2 ≠ "SPACE") pre)
       ∧ last (logs w')
         = Some (invalid_attribute (attribute_segment label))) as Hgeneral.
  { intros grid pre i j label post Hserve Hcells Hpre Hbad.
    destruct (build_run transport elapse grid w Hserve)
      as (w' & Hrun & Hsent & _ & Hlog).
    rewrite Hcells, (plan_first_unrecognized pre i j label post Hpre Hbad)
      in Hrun, Hsent, Hlog.
    exists w'. split; [exact Hrun|]. split; [exact Hsent|].
    split; [by apply placement_count|]. by apply Hlog. }
  split; [exact Hgeneral|].
  intros row rows Hserve.
  destruct (Hgeneral _ [(0, 0, "PURPLE_SOLOON")]%nat 0%nat 1%nat "BOGUS_COMETH"
              (row_cells 0 2 row ++ grid_cells 1 rows) Hserve)
    as (w' & Hrun & Hsent & _ & Hlog); [done|by repeat constructor|done|].
  by exists w'.
Qed.

Lemma build_aborts_at_first_unrecognized_witness :
  let grid := [["PURPLE_SOLOON"; "BOGUS_COMETH"; "POLYANET"]; ["POLYANET"]] in
  serves_goal (demo_transport grid) demo_world grid
  ∧ ∃ w', create_crossmint_logo (demo_transport grid) no_delay demo_world
          = (w', Ok ())
      ∧ sent w' =
          [goal_request demo_api;
           command_request demo_api (CreateColorMarker 0 0 PURPLE)]
      ∧ last (logs w') = Some (ERROR, "Invalid Soloon direction: BOGUS").
Proof.
  intros grid. split; [reflexivity|].
  apply (proj2 (build_aborts_at_first_unrecognized
                  (demo_transport grid) no_delay demo_world)
           ["POLYANET"] [["POLYANET"]]).
  reflexivity.
Defined.

(** C8.  For every grid of well-formed labels, and whatever the remote
    side answers to the create requests (any of them may fail, or all),
    the build runs to the end of the grid: it returns, and it has sent
    one request for each cell that is not SPACE, in row-major order. *)
Theorem build_completes_despite_failures transport elapse w grid :
  serves_goal transport w grid →
  Forall (Forall (λ label, well_formed label = true)) grid →
  ∃ w', create_crossmint_logo transport elapse w = (w', Ok ())
    ∧ sent w' = sent w ++ goal_request (self w) ::
        (command_request (self w) <$> omap placement (row_major grid))
    ∧ length (omap placement (row_major grid))
      = length (filter (λ cell, cell.2 ≠ "SPACE") (row_major grid)).
Proof.
  intros Hserve Hgrid.
  pose proof (grid_cells_well_formed 0 grid Hgrid) as Hcells.
  fold (row_major grid) in Hcells.
  destruct (build_run transport elapse grid w Hserve)
    as (w' & Hrun & Hsent & _).
  rewrite (plan_well_formed _ Hcells) in Hrun, Hsent.
  exists w'. split; [exact Hrun|]. split; [exact Hsent|].
  by apply placement_count.
Qed.

Lemma build_completes_despite_failures_witness :
  serves_goal (flaky_transport example_grid) demo_world example_grid
  ∧ Forall (Forall (λ label, well_formed label = true)) example_grid
  ∧ ∃ w', create_crossmint_logo (flaky_transport example_grid) no_delay
            demo_world = (w', Ok ())
      ∧ length (sent w') = 4%nat.
Proof.
  split; [reflexivity|]. split; [by repeat constructor|].
  destruct (build_completes_despite_failures (flaky_transport example_grid)
              no_delay demo_world example_grid)
    as (w' & Hrun & Hsent & _); [reflexivity|by repeat constructor|].
  exists w'. split; [exact Hrun|]. by rewrite Hsent.
Defined.

(** ** Case of the attribute names *)

(** A text that differs from an enumeration name only in the case of its
    letters is the name of no member. *)
Lemma case_variant_unknown name first :
  name ∈ color_names ++ direction_names →
  lower first = lower name → first ≠ name →
  (first ∉ color_names) ∧ (first ∉ direction_names).
Proof.
  intros Hname Hlow Hne. cbn in Hname.
  split; intros Hfirst;
    repeat (apply elem_of_cons in Hfirst as [->|Hfirst]);
    try (by apply elem_of_nil in Hfirst);
    repeat (apply elem_of_cons in Hname as [->|Hname]);
    try (by apply elem_of_nil in Hname);
    try done; by vm_compute in Hlow.
Qed.

(** A label in two parts or more is neither SPACE nor POLYANET. *)
Lemma two_parts_not_plain label first second rest :
  split "_" label = first :: second :: rest →
  label ≠ "SPACE" ∧ label ≠ "POLYANET".
Proof. intros H. split; intros ->; vm_compute in H; discriminate. Qed.

Lemma direction_of_name first :
  first ∈ direction_names →
  ∃ d, ComethDirection_name d = first ∧ ComethDirection_member first = Some d.
Proof.
  intros Hfirst.
  repeat (apply elem_of_cons in Hfirst as [->|Hfirst]);
    [by exists UP|by exists DOWN|by exists RIGHT|by exists LEFT|].
  by apply elem_of_nil in Hfirst.
Qed.

Lemma color_of_name first :
  first ∈ color_names →
  ∃ c, SoloonColor_name c = first ∧ SoloonColor_member first = Some c.
Proof.
  intros Hfirst.
  repeat (apply elem_of_cons in Hfirst as [->|Hfirst]);
    [by exists BLUE|by exists RED|by exists PURPLE|by exists WHITE|].
  by apply elem_of_nil in Hfirst.
Qed.

(** C10.  The builder looks the attribute of a label up among the member
    names, which are upper case: the colors are exactly BLUE, RED, PURPLE
    and WHITE, the directions exactly UP, DOWN, RIGHT and LEFT.  At a
    label in two parts the loop body places the Cometh or the Soloon of
    the member when the attribute is one of these names, written exactly
    so, and in every other case sends nothing, logs the error and returns
    from the build.  A label whose attribute differs from a name in the
    case of its letters is such a case, as "up_COMETH" and "Red_SOLOON":
    wherever it stands in the grid, the build stops at it. *)
Theorem attribute_names_case_sensitive transport elapse :
  (∀ name, is_Some (SoloonColor_member name)
           ↔ name ∈ ["BLUE"; "RED"; "PURPLE"; "WHITE"])
  ∧ (∀ name, is_Some (ComethDirection_member name)
             ↔ name ∈ ["UP"; "DOWN"; "RIGHT"; "LEFT"])
  ∧ (∀ label first second rest name,
       split "_" label = first :: second :: rest →
       name ∈ color_names ++ direction_names →
       lower first = lower name → first ≠ name →
       unrecognized label = true)
  ∧ (∀ label i j w,
       unrecognized label = true →
       ∃ w', visit transport elapse i j (JStr label) w = (w', Ok Return)
         ∧ sent w' = sent w
         ∧ logs w' = logs w ++ [invalid_attribute (attribute_segment label)])
  ∧ (∀ label row rows w,
       label ∈ ["up_COMETH"; "Red_SOLOON"] →
       serves_goal transport w ((label :: row) :: rows) →
       ∃ w', create_crossmint_logo transport elapse w = (w', Ok ())
         ∧ sent w' = sent w ++ [goal_request (self w)]
         ∧ last (logs w')
           = Some (invalid_attribute (attribute_segment label)))
  ∧ (∀ label first rest i j w,
       split "_" label = first :: "COMETH" :: rest →
       (first ∈ ["UP"; "DOWN"; "RIGHT"; "LEFT"] →
        ∃ d w', ComethDirection_name d = first
          ∧ visit transport elapse i j (JStr label) w = (w', Ok Continue)
          ∧ sent w' = sent w ++
              [command_request (self w)
                 (CreateDirectionMarker (Z.of_nat i) (Z.of_nat j) d)])
       ∧ (first ∉ ["UP"; "DOWN"; "RIGHT"; "LEFT"] →
          ∃ w', visit transport elapse i j (JStr label) w = (w', Ok Return)
            ∧ sent w' = sent w
            ∧ logs w' = logs w ++ [invalid_attribute first]))
  ∧ (∀ label first second rest i j w,
       split "_" label = first :: second :: rest →
       second ≠ "COMETH" →
       (first ∈ ["BLUE"; "RED"; "PURPLE"; "WHITE"] →
        ∃ c w', SoloonColor_name c = first
          ∧ visit transport elapse i j (JStr label) w = (w', Ok Continue)
          ∧ sent w' = sent w ++
              [command_request (self w)
                 (CreateColorMarker (Z.of_nat i) (Z.of_nat j) c)])
       ∧ (first ∉ ["BLUE"; "RED"; "PURPLE"; "WHITE"] →
          ∃ w', visit transport elapse i j (JStr label) w = (w', Ok Return)
            ∧ sent w' = sent w
            ∧ logs w' = logs w ++ [invalid_attribute first]))
  ∧ (∀ w grid pre i j label post first second rest name,
       serves_goal transport w grid →
       row_major grid = pre ++ (i, j, label) :: post →
       Forall (λ cell, well_formed cell.2 = true) pre →
       split "_" label = first :: second :: rest →
       name ∈ color_names ++ direction_names →
       lower first = lower name → first ≠ name →
       ∃ w', create_crossmint_logo transport elapse w = (w', Ok ())
         ∧ sent w' = sent w ++ goal_request (self w) ::
             (command_request (self w) <$> omap placement pre)
         ∧ last (logs w') = Some (invalid_attribute first)).
Proof.
  assert (∀ label first second rest name,
       split "_" label = first :: second :: rest →
       name ∈ color_names ++ direction_names →
       lower first = lower name → first ≠ name →
       unrecognized label = true) as Hvariant.
  { intros label first second rest name Hsplit Hname Hlow Hne.
    destruct (case_variant_unknown name first Hname Hlow Hne) as [Hc Hd].
    unfold unrecognized. rewrite Hsplit.
    destruct (decide (second = "COMETH")); by apply bool_decide_eq_true_2. }
  split; [apply color_member_names|]. split; [apply direction_member_names|].
  split; [exact Hvariant|]. split; [|split; [|split; [|split]]].
  - intros label i j w Hbad.
    pose proof (visit_interpret transport elapse i j label w) as Hvisit.
    rewrite (interpret_unrecognized i j label Hbad) in Hvisit.
    destruct Hvisit as (w' & Hrun & Hsent & _ & Hlogs). by exists w'.
  - intros label row rows w Hlabel Hserve.
    assert (unrecognized label = true) as Hbad.
    { repeat (apply elem_of_cons in Hlabel as [->|Hlabel]); try done.
      by apply elem_of_nil in Hlabel. }
    destruct (build_run transport elapse _ w Hserve)
      as (w' & Hrun & Hsent & _ & Hlog).
    change (row_major ((label :: row) :: rows))
      with ([] ++ ((0%nat, 0%nat, label) ::
                     (row_cells 0 1 row ++ grid_cells 1 rows)))
      in Hrun, Hsent, Hlog.
    rewrite (plan_first_unrecognized [] _ _ label _ (Forall_nil_2 _) Hbad)
      in Hrun, Hsent, Hlog.
    exists w'. split; [exact Hrun|]. split; [exact Hsent|]. by apply Hlog.
  - intros label first rest i j w Hsplit.
    destruct (two_parts_not_plain _ _ _ _ Hsplit) as [H1 H2].
    pose proof (visit_interpret transport elapse i j label w) as Hvisit.
    unfold interpret in Hvisit.
    rewrite !decide_False, Hsplit, decide_True in Hvisit by done.
    split.
    + intros Hfirst. destruct (direction_of_name first Hfirst) as (d & Hd & Hm).
      rewrite Hm in Hvisit. destruct Hvisit as (w' & Hrun & Hsent & _).
      by exists d, w'.
    + intros Hfirst.
      destruct (ComethDirection_member first) as [d|] eqn:Hm.
      { destruct Hfirst. apply direction_member_names. by eexists. }
      destruct Hvisit as (w' & Hrun & Hsent & _ & Hlogs). by exists w'.
  - intros label first second rest i j w Hsplit Hsecond.
    destruct (two_parts_not_plain _ _ _ _ Hsplit) as [H1 H2].
    pose proof (visit_interpret transport elapse i j label w) as Hvisit.
    unfold interpret in Hvisit.
    rewrite !decide_False, Hsplit, decide_False in Hvisit by done.
    split.
    + intros Hfirst. destruct (color_of_name first Hfirst) as (c & Hc & Hm).
      rewrite Hm in Hvisit. destruct Hvisit as (w' & Hrun & Hsent & _).
      by exists c, w'.
    + intros Hfirst.
      destruct (SoloonColor_member first) as [c|] eqn:Hm.
      { destruct Hfirst. apply color_member_names. by eexists. }
      destruct Hvisit as (w' & Hrun & Hsent & _ & Hlogs). by exists w'.
  - intros w grid pre i j label post first second rest name
      Hserve Hcells Hpre Hsplit Hname Hlow Hne.
    pose proof (Hvariant _ _ _ _ _ Hsplit Hname Hlow Hne) as Hbad.
    destruct (build_run transport elapse grid w Hserve)
      as (w' & Hrun & Hsent & _ & Hlog).
    rewrite Hcells, (plan_first_unrecognized pre i j label post Hpre Hbad)
      in Hrun, Hsent, Hlog.
    exists w'. split; [exact Hrun|]. split; [exact Hsent|].
    rewrite (Hlog _ eq_refl). unfold attribute_segment. by rewrite Hsplit.
Qed.

Lemma attribute_names_case_sensitive_witness :
  let grid := [["UP_COMETH"; "up_COMETH"; "POLYANET"]] in
  serves_goal (demo_transport grid) demo_world grid
  ∧ row_major grid
    = [(0, 0, "UP_COMETH")]%nat ++ (0, 1, "up_COMETH")%nat ::
        [(0, 2, "POLYANET")]%nat
  ∧ split "_" "up_COMETH" = ["up"; "COMETH"]
  ∧ lower "up" = lower "UP" ∧ "up" ≠ "UP"
  ∧ ∃ w', create_crossmint_logo (demo_transport grid) no_delay demo_world
          = (w', Ok ())
      ∧ sent w' = [goal_request demo_api;
                   command_request demo_api (CreateDirectionMarker 0 0 UP)]
      ∧ last (logs w') = Some (ERROR, "Invalid Soloon direction: up").
Proof.
  intros grid. split; [reflexivity|]. split; [reflexivity|].
  split; [reflexivity|]. split; [reflexivity|]. split; [done|].
  apply (proj2 (proj2 (proj2 (proj2 (proj2 (proj2 (proj2
           (attribute_names_case_sensitive (demo_transport grid)
              no_delay)))))))
           demo_world grid [(0, 0, "UP_COMETH")]%nat 0%nat 1%nat "up_COMETH"
           [(0, 2, "POLYANET")]%nat "up" "COMETH" [] "UP").
  - reflexivity.
  - reflexivity.
  - by repeat constructor.
  - reflexivity.
  - by apply (bool_decide_unpack _).
  - reflexivity.
  - done.
Defined.

(** * Further properties of the client *)

(** ** The object operations, continued *)

Section MoreRepository.

Variable transport : list request → request → reply.
Variable elapse : nat → Z.

(** X1.  Every delete sends exactly one DELETE request to
    [base_url/object_type] whose body holds the candidate id, the row and
    the column and nothing else; it returns whatever the reply, and its
    last log record is the success notice. *)
Theorem delete_object_sends_one object_type row column w :
  ∃ w', delete_object transport elapse object_type row column w = (w', Ok ())
    ∧ sent w' = sent w ++
        [Request "delete" (base_url (self w) +:+ "/" +:+ object_type)
           (position_body (self w) row column)]
    ∧ last (logs w')
      = Some (INFO, capitalize object_type +:+ " successfully deleted").
Proof.
  unfold delete_object.
  destruct (handle_requests_run transport elapse "delete" object_type
              (<["row" := PInt row]> {[ "column" := PInt column ]}) w)
    as (w1 & Hrun & Hsent & _); [by apply (bool_decide_unpack _)|].
  rewrite (bind_ok _ _ _ _ _ Hrun). unfold logging.
  eexists; split; [reflexivity|]. cbn [sent logs]. split.
  - rewrite Hsent. unfold dispatched, make_payload, position_body.
    by rewrite <- insert_union_singleton_r.
  - by rewrite last_snoc.
Qed.

(** X2.  A create writes its success notice whatever became of the
    request: the log gets what the dispatcher recorded about the reply (an
    error record when the request failed) and then "... successfully
    created". *)
Theorem create_logs_success_regardless object_type row column
    (kwargs : gmap string pyval) w :
  Forall (λ k, kwargs !! k = None) taken_keywords →
  let req := dispatched (self w) "post" object_type
               (<["row" := PInt row]> (<["column" := PInt column]> kwargs)) in
  ∃ w', create_object transport elapse object_type row column kwargs w
          = (w', Ok ())
    ∧ logs w' = logs w ++ logged (classify (transport (sent w) req)) ++
        [(INFO, capitalize object_type +:+ " successfully created")].
Proof.
  intros Hfree req. unfold create_object.
  rewrite filter_none; last first.
  { eapply Forall_impl; [exact Hfree|]. intros k -> [? ?]. done. }
  destruct (handle_requests_run transport elapse "post" object_type
              (<["row" := PInt row]> (<["column" := PInt column]> kwargs)) w
              post_is_function)
    as (w1 & Hrun & _ & Hlogs & _).
  rewrite (bind_ok _ _ _ _ _ Hrun). unfold logging.
  eexists; split; [reflexivity|]. cbn [logs]. by rewrite Hlogs, <- app_assoc.
Qed.

(** X3.  A create whose extra keywords name [method] or [endpoint] fails
    with [TypeError] before anything happens: no request is sent, nothing
    is logged, the limiter is not consulted. *)
Theorem create_rejects_taken_keyword object_type row column
    (kwargs : gmap string pyval) k w :
  k ∈ ["method"; "endpoint"] →
  is_Some (kwargs !! k) →
  ∃ e, create_object transport elapse object_type row column kwargs w
       = (w, Raise e)
    ∧ exn_cls e = TypeError.
Proof.
  intros Hk Hsome. unfold create_object.
  destruct (filter _ taken_keywords) as [|k' ks] eqn:Hfilter.
  - exfalso. apply (filter_nil_not_elem_of _ _ k Hfilter Hsome).
    apply elem_of_cons in Hk as [->|Hk]; [by apply (bool_decide_unpack _)|].
    apply elem_of_cons in Hk as [->|Hk]; [by apply (bool_decide_unpack _)|].
    by apply elem_of_nil in Hk.
  - by eexists.
Qed.

End MoreRepository.

Lemma create_logs_success_regardless_witness :
  Forall (λ k, (∅ : gmap string pyval) !! k = None) taken_keywords
  ∧ ∃ w', create_object dead_transport no_delay "polyanets" 1 2 ∅ demo_world
          = (w', Ok ())
      ∧ logs w' = [(ERROR, "Error Connecting: Connection refused");
                   (INFO, "Polyanets successfully created")].
Proof.
  split; [by repeat constructor|].
  destruct (create_logs_success_regardless dead_transport no_delay
              "polyanets" 1 2 ∅ demo_world)
    as (w' & Hrun & Hlogs); [by repeat constructor|].
  exists w'. split; [exact Hrun|exact Hlogs].
Defined.

Lemma create_rejects_taken_keyword_witness :
  "method" ∈ ["method"; "endpoint"]
  ∧ is_Some (({[ "method" := PStr "get" ]} : gmap string pyval) !! "method")
  ∧ ∃ e, create_object dead_transport no_delay "polyanets" 1 2
           {[ "method" := PStr "get" ]} demo_world
         = (demo_world, Raise e)
      ∧ exn_cls e = TypeError.
Proof.
  split; [by apply (bool_decide_unpack _)|]. split; [by eexists|].
  apply (create_rejects_taken_keyword dead_transport no_delay
           "polyanets" 1 2 {[ "method" := PStr "get" ]} "method" demo_world).
  - by apply (bool_decide_unpack _).
  - by eexists.
Defined.

(** ** The limiter and the dispatcher, continued *)

Section MoreDispatcher.

Variable transport : list request → request → reply.
Variable elapse : nat → Z.

(** X4.  When reading the clock takes no time and the sleep does not
    overshoot, the limiter releases the caller at the later of its arrival
    and [request_delay] after the previous timestamp: it waits the
    remainder and no longer, and does not wait at all when the delay has
    passed. *)
Theorem release_time w :
  (∀ n, (steps w < n)%nat → elapse n = 0) →
  last_request_time (self (exec (_rate_time elapse) w))
  = Z.max (clock w + elapse (steps w))
          (last_request_time (self w) + request_delay (self w)).
Proof.
  intros Hquiet.
  unfold exec, _rate_time, mbind, M_bind, datetime_now, get_self, time_sleep,
    set_last_request_time, pass_time, mret, M_ret.
  cbn. case_bool_decide; cbn;
    rewrite ?(Hquiet (S (steps w))), ?(Hquiet (S (S (steps w)))) by lia; lia.
Qed.

(** X5.  A method name for which [requests] has no function: no request
    is sent and nothing is logged, and the exception that leaves the
    dispatcher is not a [RequestException]; the limiter has been served
    all the same, and on a clock that is not set back its timestamp has
    moved on by at least [request_delay]. *)
Theorem unknown_method_sends_nothing method endpoint kwards w :
  method ∉ requests_functions →
  ∃ w' e, _handle_requests transport elapse method endpoint kwards w
          = (w', Raise e)
    ∧ subclass (exn_cls e) RequestException = false
    ∧ sent w' = sent w
    ∧ logs w' = logs w
    ∧ (forward elapse →
       last_request_time (self w) + request_delay (self w)
         ≤ last_request_time (self w')).
Proof.
  intros Hm.
  destruct (handle_requests_unknown transport elapse method endpoint kwards w Hm)
    as (w' & Hrun & Hsent & Hlogs & _ & Hgap & _).
  exists w', (Exn AttributeError method). by repeat split.
Qed.

(** X6.  How a dispatch is recorded in the log, by the reply.  An error
    status gives "HTTP Error", whatever the body; a connection failure and
    a connect timeout give "Error Connecting" (the clause for connection
    errors comes before the one for timeouts); a read timeout gives
    "Timeout Error"; any other fault, or a body that does not decode,
    gives "Something weird went wrong".  Each of these returns [None]. *)
Theorem reply_log_table method endpoint kwards w :
  method ∈ requests_functions →
  let rep := transport (sent w) (dispatched (self w) method endpoint kwards) in
  let run := _handle_requests transport elapse method endpoint kwards w in
  let failed_with prefix text :=
    run.2 = Ok JNull ∧ logs run.1 = logs w ++ [(ERROR, prefix +:+ text)] in
  (∀ r, rep = Response r → 400 ≤ status_code r < 600 →
        failed_with "HTTP Error: " (status_text r))
  ∧ (∀ r, rep = Response r → ¬ 400 ≤ status_code r < 600 → body r = None →
        ∃ text, failed_with "Something weird went wrong: " text)
  ∧ (∀ text, rep = Failed ConnectionFault text →
        failed_with "Error Connecting: " text)
  ∧ (∀ text, rep = Failed ConnectTimeoutFault text →
        failed_with "Error Connecting: " text)
  ∧ (∀ text, rep = Failed ReadTimeoutFault text →
        failed_with "Timeout Error: " text)
  ∧ (∀ text, rep = Failed OtherFault text →
        failed_with "Something weird went wrong: " text).
Proof.
  intros Hm rep run failed_with. subst failed_with run.
  destruct (handle_requests_run transport elapse method endpoint kwards w Hm)
    as (w' & Hrun & _ & Hlogs & _).
  rewrite Hrun. cbn [fst snd]. rewrite Hlogs. fold rep.
  repeat split; intros; subst rep;
    match goal with H : transport _ _ = _ |- _ => rewrite H end;
    cbn [classify returned logged];
    rewrite ?bool_decide_eq_true_2, ?bool_decide_eq_false_2 by done;
    try match goal with H : body _ = None |- _ => rewrite H end;
    try done; by eexists.
Qed.

(** X7.  On a clock that is not set back, the first dispatch after the
    construction is held back until [request_delay] after it: the limiter
    starts from the time of construction, with a delay of 0.6 s when the
    configuration gives none, and the request is released (timestamp and
    all) no earlier than that. *)
Theorem first_dispatch_waits candidate base delay method endpoint kwards w :
  forward elapse →
  let w0 := exec (init elapse candidate base delay) w in
  let w1 := exec (_handle_requests transport elapse method endpoint kwards) w0 in
  clock w0 + default 600000 delay ≤ last_request_time (self w1)
  ∧ last_request_time (self w1) ≤ clock w1.
Proof.
  intros Hf w0 w1.
  destruct (handle_requests_stamp transport elapse method endpoint kwards w0)
    as (_ & Htime).
  destruct (Htime Hf) as [Hgap Hclock]. fold w1 in Hgap, Hclock.
  split; [exact Hgap|exact Hclock].
Qed.

(** X8.  The goal map is fetched with one GET to
    [base_url/map/<candidate id>/goal] whose body holds the candidate id
    alone; the caller gets the decoded body of a good response, and [None]
    when the request fails. *)
Theorem goal_map_fetch w :
  let req := Request "get"
               (base_url (self w) +:+ "/" +:+
                  ("map/" +:+ candidate_id (self w) +:+ "/goal"))
               {[ "candidateId" := PStr (candidate_id (self w)) ]} in
  ∃ w' v, goal_map transport elapse w = (w', Ok v)
    ∧ sent w' = sent w ++ [req]
    ∧ (∀ r b, transport (sent w) req = Response r →
         ¬ 400 ≤ status_code r < 600 → body r = Some b → v = b)
    ∧ (∀ f text, transport (sent w) req = Failed f text → v = JNull).
Proof.
  intros req.
  destruct (goal_map_run transport elapse w) as (w' & Hrun & Hsent & _).
  assert (goal_request (self w) = req) as Hreq.
  { unfold goal_request, dispatched, make_payload, req.
    by rewrite (left_id_L ∅ (∪)). }
  rewrite Hreq in Hrun, Hsent.
  eexists w', _. split; [exact Hrun|]. split; [exact Hsent|]. split.
  - intros r b -> Hstatus Hbody. cbn [classify].
    by rewrite (bool_decide_eq_false_2 _ Hstatus), Hbody.
  - intros f text ->. by destruct f.
Qed.

End MoreDispatcher.

Lemma first_dispatch_waits_witness :
  forward no_delay
  ∧ let w0 := exec (init no_delay "c-1" "https://api" None) demo_world in
    let w1 := exec (_handle_requests dead_transport no_delay "get" "x" ∅) w0 in
    clock w0 = 0 ∧ 600000 ≤ last_request_time (self w1).
Proof.
  split; [by intros n|]. split; [reflexivity|].
  apply (first_dispatch_waits dead_transport no_delay
           "c-1" "https://api" None "get" "x" ∅ demo_world).
  by intros n.
Defined.

Lemma release_time_witness :
  (∀ n, (steps demo_world < n)%nat → no_delay n = 0)
  ∧ last_request_time (self (exec (_rate_time no_delay) demo_world)) = 600000.
Proof.
  split; [done|].
  rewrite (release_time no_delay demo_world); [reflexivity|done].
Defined.

Lemma unknown_method_sends_nothing_witness :
  ("trace" ∉ requests_functions)
  ∧ forward no_delay
  ∧ ∃ w' e, _handle_requests dead_transport no_delay "trace" "polyanets" ∅
              demo_world = (w', Raise e)
      ∧ sent w' = []
      ∧ 600000 ≤ last_request_time (self w').
Proof.
  split; [by apply (bool_decide_unpack _)|]. split; [by intros n|].
  destruct (unknown_method_sends_nothing dead_transport no_delay
              "trace" "polyanets" ∅ demo_world)
    as (w' & e & Hrun & _ & Hsent & _ & Hgap);
    [by apply (bool_decide_unpack _)|].
  exists w', e. split; [exact Hrun|]. split; [exact Hsent|].
  apply Hgap. by intros n.
Defined.

Lemma reply_log_table_witness :
  "post" ∈ requests_functions
  ∧ logs (_handle_requests dead_transport no_delay "post" "polyanets" ∅
            demo_world).1
    = [(ERROR, "Error Connecting: Connection refused")].
Proof.
  split; [by apply (bool_decide_unpack _)|].
  refine (proj2 (proj1 (proj2 (proj2 (reply_log_table dead_transport no_delay
            "post" "polyanets" ∅ demo_world _))) "Connection refused" _)).
  - by apply (bool_decide_unpack _).
  - reflexivity.
Defined.

Lemma goal_map_fetch_witness :
  ∃ w' v, goal_map (demo_transport example_grid) no_delay demo_world
          = (w', Ok v)
    ∧ v = goal_response example_grid.
Proof.
  destruct (goal_map_fetch (demo_transport example_grid) no_delay demo_world)
    as (w' & v & Hrun & _ & Hbody & _).
  exists w', v. split; [exact Hrun|].
  eapply Hbody; [reflexivity|cbn; lia|reflexivity].
Defined.

(** ** The enumerations and the labels, continued *)

(** X9.  Each member of the two enumerations is found under its name and
    under no other text, and its value, which is what a request carries,
    is its name in lower case. *)
Theorem enumeration_names_and_values :
  (∀ c, SoloonColor_member (SoloonColor_name c) = Some c)
  ∧ (∀ name c, SoloonColor_member name = Some c → name = SoloonColor_name c)
  ∧ (∀ c, SoloonColor_value c = lower (SoloonColor_name c))
  ∧ (∀ d, ComethDirection_member (ComethDirection_name d) = Some d)
  ∧ (∀ name d, ComethDirection_member name = Some d →
       name = ComethDirection_name d)
  ∧ (∀ d, ComethDirection_value d = lower (ComethDirection_name d)).
Proof.
  repeat split.
  - by intros [].
  - intros name c. unfold SoloonColor_member.
    repeat case_decide; intros [= <-]; by subst.
  - by intros [].
  - by intros [].
  - intros name d. unfold ComethDirection_member.
    repeat case_decide; intros [= <-]; by subst.
  - by intros [].
Qed.

Lemma enumeration_names_and_values_witness :
  SoloonColor_member "RED" = Some RED ∧ "RED" = SoloonColor_name RED.
Proof.
  split; [reflexivity|].
  apply (proj1 (proj2 enumeration_names_and_values) "RED" RED). reflexivity.
Defined.

Lemma split_nonempty sep s : split sep s ≠ [].
Proof.
  destruct s as [|c s]; cbn [split]; [done|].
  case_decide; [done|]. by destruct (split sep s).
Qed.

Lemma split_without_separator sep s :
  sep ∉ chars s → split sep s = [s].
Proof.
  unfold chars. induction s as [|c s IH]; cbn [split list_ascii_of_string];
    [done|].
  intros Hsep. apply not_elem_of_cons in Hsep as [Hc Hs].
  rewrite decide_False by done. by rewrite (IH Hs).
Qed.

(** X10.  Splitting loses nothing: joining the segments of [s.split(sep)]
    with the separator gives [s] back, no segment holds the separator, and
    the segments are one more than the separators in [s]. *)
Theorem split_join_round_trip sep s :
  join sep (split sep s) = s
  ∧ Forall (λ seg, sep ∉ chars seg) (split sep s)
  ∧ length (split sep s) = S (length (filter (λ c, c = sep) (chars s))).
Proof.
  unfold chars. induction s as [|c s (IHjoin & IHseg & IHlen)];
    cbn [split list_ascii_of_string].
  - split; [done|]. split; [|done]. constructor; [|done]. apply not_elem_of_nil.
  - case_decide as Hc.
    + subst c. split; [|split].
      * pose proof (split_nonempty sep s) as Hne.
        destruct (split sep s) as [|seg segs]; [done|].
        cbn [join]. cbn [join] in IHjoin. by rewrite IHjoin.
      * constructor; [apply not_elem_of_nil|done].
      * rewrite filter_cons_True by done. cbn [length]. by rewrite IHlen.
    + pose proof (split_nonempty sep s) as Hne.
      destruct (split sep s) as [|seg segs]; [done|].
      split; [|split].
      * rewrite <- IHjoin. cbn [join]. by destruct segs.
      * apply Forall_cons in IHseg as [Hseg Hsegs].
        constructor; [|done]. cbn [list_ascii_of_string].
        apply not_elem_of_cons. by split; [congruence|].
      * rewrite filter_cons_False by done. exact IHlen.
Qed.

(** ** The builder, continued *)

Section MoreBuilder.

Variable transport : list request → request → reply.
Variable elapse : nat → Z.

(** X11.  Of a label the loop body reads the first two segments only, and
    of the second only whether it is COMETH: labels that agree on their
    first two segments are treated alike, and every label whose first
    segment is a color name and whose second is not COMETH places a Soloon
    of that color. *)
Theorem category_is_cometh_or_soloon i j w :
  (∀ label label' first second rest rest',
     split "_" label = first :: second :: rest →
     split "_" label' = first :: second :: rest' →
     visit transport elapse i j (JStr label) w
     = visit transport elapse i j (JStr label') w)
  ∧ (∀ label first second rest c,
       split "_" label = first :: second :: rest →
       second ≠ "COMETH" →
       SoloonColor_member first = Some c →
       ∃ w', visit transport elapse i j (JStr label) w = (w', Ok Continue)
         ∧ sent w' = sent w ++
             [command_request (self w)
                (CreateColorMarker (Z.of_nat i) (Z.of_nat j) c)]).
Proof.
  split.
  - intros label label' first second rest rest' Hsplit Hsplit'.
    destruct (two_parts_not_plain _ _ _ _ Hsplit) as [H1 H2].
    destruct (two_parts_not_plain _ _ _ _ Hsplit') as [H1' H2'].
    unfold visit, equals_str, split_item.
    rewrite !bool_decide_eq_false_2 by done.
    by rewrite Hsplit, Hsplit'.
  - intros label first second rest c Hsplit Hsecond Hcolor.
    destruct (two_parts_not_plain _ _ _ _ Hsplit) as [H1 H2].
    pose proof (visit_interpret transport elapse i j label w) as Hvisit.
    unfold interpret in Hvisit.
    rewrite !decide_False, Hsplit, decide_False, Hcolor in Hvisit by done.
    destruct Hvisit as (w' & Hrun & Hsent & _). by exists w'.
Qed.

(** X12.  A label without "_" that is neither SPACE nor POLYANET stops
    the build with [IndexError]: the cells before it have got their
    requests, no later cell gets any. *)
Theorem build_raises_on_plain_label w grid pre i j label post :
  serves_goal transport w grid →
  row_major grid = pre ++ (i, j, label) :: post →
  Forall (λ cell, well_formed cell.2 = true) pre →
  label ≠ "SPACE" → label ≠ "POLYANET" →
  "_"%char ∉ chars label →
  ∃ w', create_crossmint_logo transport elapse w
        = (w', Raise (Exn IndexError "list index out of range"))
    ∧ sent w' = sent w ++ goal_request (self w) ::
        (command_request (self w) <$> omap placement pre).
Proof.
  intros Hserve Hcells Hpre H1 H2 Hplain.
  destruct (build_run transport elapse grid w Hserve)
    as (w' & Hrun & Hsent & _).
  assert (plan (pre ++ (i, j, label) :: post)
          = (omap placement pre,
             Crashed (Exn IndexError "list index out of range"))) as Hplan.
  { rewrite plan_app, (plan_well_formed pre Hpre). cbn [fst snd plan].
    unfold interpret.
    rewrite !decide_False, (split_without_separator _ _ Hplain) by done.
    by rewrite app_nil_r. }
  rewrite Hcells, Hplan in Hrun, Hsent. by exists w'.
Qed.

Lemma for_columns_app i j xs ys w :
  for_columns transport elapse i j (xs ++ ys) w
  = match for_columns transport elapse i j xs w with
    | (w', Ok Continue) =>
        for_columns transport elapse i (j + length xs)%nat ys w'
    | r => r
    end.
Proof.
  revert j w. induction xs as [|x xs IH]; intros j w; cbn [app for_columns].
  - by rewrite Nat.add_0_r.
  - unfold mbind, M_bind.
    destruct (visit transport elapse i j x w) as [w1 [[]|e]]; [|done..].
    rewrite IH. cbn [length]. by rewrite Nat.add_succ_r.
Qed.

Lemma for_rows_app i xs ys w :
  for_rows transport elapse i (xs ++ ys) w
  = match for_rows transport elapse i xs w with
    | (w', Ok Continue) => for_rows transport elapse (i + length xs)%nat ys w'
    | r => r
    end.
Proof.
  revert i w. induction xs as [|x xs IH]; intros i w; cbn [app for_rows].
  - by rewrite Nat.add_0_r.
  - unfold mbind, M_bind, lift.
    destruct (iterate x) as [cells|e]; [|done].
    destruct (for_columns transport elapse i 0 cells w) as [w1 [[]|e]];
      [|done..].
    rewrite IH. cbn [length]. by rewrite Nat.add_succ_r.
Qed.

Lemma visit_non_string i j cell w :
  (∀ s, cell ≠ JStr s) →
  visit transport elapse i j cell w = (w, Raise (Exn AttributeError "split")).
Proof.
  intros Hcell. destruct cell as [|b|n|s|items|fs]; try done.
  by destruct (Hcell s).
Qed.

(** X13.  A cell of the goal that is not a string (a number, [None], a
    list, a dict) stops the build with [AttributeError], wherever it is:
    the cells before it have got their requests, no later cell gets any.
    The failing [split] is outside the [try], so the exception is not
    taken for an unrecognized attribute. *)
Theorem build_raises_on_non_string_cell w fields above left cell right below :
  returned (classify (transport (sent w) (goal_request (self w))))
  = JObj fields →
  getitem fields "goal"
  = Ok (JArr (((λ row, JArr (JStr <$> row)) <$> above) ++
              JArr ((JStr <$> left) ++ cell :: right) :: below)) →
  Forall (Forall (λ label, well_formed label = true)) above →
  Forall (λ label, well_formed label = true) left →
  (∀ s, cell ≠ JStr s) →
  ∃ w' e, create_crossmint_logo transport elapse w = (w', Raise e)
    ∧ exn_cls e = AttributeError
    ∧ sent w' = sent w ++ goal_request (self w) ::
        (command_request (self w)
           <$> omap placement (grid_cells 0 above ++
                               row_cells (length above) 0 left)).
Proof.
  intros Hfetch Hgoal Habove Hleft Hcell.
  destruct (goal_map_run transport elapse w) as (w1 & Hrun & Hsent & _ & Hcfg).
  cbv zeta in Hrun. rewrite Hfetch in Hrun.
  destruct (for_rows_plan transport elapse 0 above w1)
    as (w2 & Hrows & Hsent2 & Hcfg2 & _).
  rewrite (plan_well_formed _ (grid_cells_well_formed 0 above Habove))
    in Hrows, Hsent2. cbn [fst snd loop_result] in Hrows, Hsent2.
  destruct (for_columns_plan transport elapse (length above) 0 left w2)
    as (w3 & Hcols & Hsent3 & _).
  rewrite (plan_well_formed _ (row_cells_well_formed _ 0 left Hleft))
    in Hcols, Hsent3. cbn [fst snd loop_result] in Hcols, Hsent3.
  exists w3, (Exn AttributeError "split"). split; [|split; [done|]].
  - unfold create_crossmint_logo. rewrite (bind_ok _ _ _ _ _ Hrun), Hgoal.
    unfold lift, mbind at 1 2, M_bind at 1 2, iterate. cbv beta iota.
    unfold mbind, M_bind. rewrite for_rows_app, Hrows, length_fmap.
    cbn [Nat.add for_rows iterate].
    unfold lift, mbind, M_bind. cbv beta iota.
    rewrite for_columns_app, Hcols. cbn [for_columns].
    unfold mbind, M_bind. by rewrite (visit_non_string _ _ _ _ Hcell).
  - rewrite Hsent3, Hsent2, Hsent, <- !app_assoc, omap_app, fmap_app.
    cbn [app]. do 3 f_equal.
    + apply list_fmap_ext. intros _ c _. symmetry.
      by apply command_request_same_config.
    + apply list_fmap_ext. intros _ c _. symmetry.
      apply command_request_same_config. by eapply same_config_trans.
Qed.

Lemma getitem_missing fields key :
  key ∉ fields.*1 → getitem fields key = Raise (Exn KeyError key).
Proof.
  induction fields as [|[k v] fields IH]; cbn [getitem fmap list_fmap fst];
    [done|].
  intros Hkey. apply not_elem_of_cons in Hkey as [Hk Hrest].
  rewrite decide_False by done. by apply IH.
Qed.

(** X14.  A fetched dict that is not a goal map stops the build with an
    exception, after the fetch and before any creation request:
    [KeyError] when it has no "goal" entry, [TypeError] when the entry is
    [None], a boolean or a number. *)
Theorem build_raises_on_malformed_dict w fields :
  returned (classify (transport (sent w) (goal_request (self w))))
  = JObj fields →
  (("goal" ∉ fields.*1) →
     ∃ w' e, create_crossmint_logo transport elapse w = (w', Raise e)
       ∧ exn_cls e = KeyError
       ∧ sent w' = sent w ++ [goal_request (self w)])
  ∧ (∀ v, getitem fields "goal" = Ok v →
       (v = JNull ∨ (∃ b, v = JBool b) ∨ (∃ n, v = JNum n)) →
       ∃ w' e, create_crossmint_logo transport elapse w = (w', Raise e)
         ∧ exn_cls e = TypeError
         ∧ sent w' = sent w ++ [goal_request (self w)]).
Proof.
  intros Hfetch.
  destruct (goal_map_run transport elapse w) as (w1 & Hrun & Hsent & _).
  cbv zeta in Hrun. rewrite Hfetch in Hrun.
  split.
  - intros Hkey. exists w1, (Exn KeyError "goal"). split; [|done].
    unfold create_crossmint_logo.
    by rewrite (bind_ok _ _ _ _ _ Hrun), (getitem_missing _ _ Hkey).
  - intros v Hgoal Hv. exists w1. unfold create_crossmint_logo.
    rewrite (bind_ok _ _ _ _ _ Hrun), Hgoal.
    destruct Hv as [->|[[b ->]|[n ->]]]; by eexists.
Qed.

Lemma for_columns_spaces i j row w :
  Forall (λ label, label = "SPACE") row →
  for_columns transport elapse i j (JStr <$> row) w = (w, Ok Continue).
Proof.
  intros Hrow. revert j. induction Hrow as [|label row -> _ IH]; intros j.
  - done.
  - cbn [fmap list_fmap for_columns]. unfold mbind, M_bind.
    change (visit transport elapse i j (JStr "SPACE") w) with (w, Ok Continue).
    apply IH.
Qed.

Lemma for_rows_spaces i grid w :
  Forall (Forall (λ label, label = "SPACE")) grid →
  for_rows transport elapse i ((λ row, JArr (JStr <$> row)) <$> grid) w
  = (w, Ok Continue).
Proof.
  intros Hgrid. revert i. induction Hgrid as [|row grid Hrow _ IH]; intros i.
  - done.
  - cbn [fmap list_fmap for_rows iterate]. unfold lift, mbind, M_bind.
    cbv beta iota. rewrite (for_columns_spaces _ _ _ _ Hrow). apply IH.
Qed.

(** X15.  A goal grid with nothing to place (no rows, empty rows, or SPACE
    in every cell) costs the fetch and nothing else: the build returns, no
    creation request is sent, the log is left as it was. *)
Theorem build_of_empty_grid w grid :
  serves_goal transport w grid →
  Forall (Forall (λ label, label = "SPACE")) grid →
  ∃ w', create_crossmint_logo transport elapse w = (w', Ok ())
    ∧ sent w' = sent w ++ [goal_request (self w)]
    ∧ logs w' = logs w.
Proof.
  intros Hserve Hgrid. unfold serves_goal in Hserve.
  destruct (goal_map_run transport elapse w)
    as (w1 & Hrun & Hsent & Hlogs & _).
  cbv zeta in Hrun, Hlogs. rewrite Hserve in Hrun.
  exists w1. split; [|split; [done|]].
  - unfold create_crossmint_logo. rewrite (bind_ok _ _ _ _ _ Hrun).
    unfold goal_response, grid_json. cbn [getitem].
    rewrite decide_True by done.
    unfold lift, mbind at 1 2, M_bind at 1 2, iterate. cbv beta iota.
    by rewrite (bind_ok _ _ _ _ _ (for_rows_spaces 0 grid w1 Hgrid)).
  - rewrite Hlogs.
    destruct (classify (transport (sent w) (goal_request (self w))));
      cbn [logged]; [by rewrite app_nil_r|discriminate Hserve..].
Qed.

End MoreBuilder.

Lemma placement_inv i j label c :
  placement (i, j, label) = Some c →
  position c = (Z.of_nat i, Z.of_nat j) ∧ label ≠ "SPACE".
Proof.
  unfold placement, interpret. cbn [fst snd].
  destruct (decide (label = "SPACE")); [done|].
  destruct (decide (label = "POLYANET")); [by intros [= <-]|].
  destruct (split "_" label) as [|first [|second rest]]; [done..|].
  destruct (decide (second = "COMETH")).
  - destruct (ComethDirection_member first); [by intros [= <-]|done].
  - destruct (SoloonColor_member first); [by intros [= <-]|done].
Qed.

Lemma length_omap_le {A B} (f : A → option B) (l : list A) :
  (length (omap f l) ≤ length l)%nat.
Proof.
  induction l as [|x l IH]; cbn [omap list_omap length]; [done|].
  destruct (f x); cbn [length]; lia.
Qed.

Lemma row_cells_positions_NoDup i j row : NoDup (fst <$> row_cells i j row).
Proof.
  revert j. induction row as [|label row IH]; intros j;
    cbn [row_cells fmap list_fmap]; [constructor|].
  apply NoDup_cons. split; [|apply IH].
  intros ([[i' j'] l] & Heq & Hcell%elem_of_row_cells)%list_elem_of_fmap.
  cbn in Heq. injection Heq as <- <-. lia.
Qed.

Lemma grid_cells_positions_NoDup i grid : NoDup (fst <$> grid_cells i grid).
Proof.
  revert i. induction grid as [|row grid IH]; intros i; cbn [grid_cells];
    [constructor|].
  rewrite fmap_app. apply NoDup_app.
  split; [apply row_cells_positions_NoDup|]. split; [|apply IH].
  intros [i' j'].
  intros ([[i1 j1] l1] & Heq & Hcell%elem_of_row_cells)%list_elem_of_fmap.
  intros ([[i2 j2] l2] & Heq' & Hcell'%elem_of_grid_cells)%list_elem_of_fmap.
  cbn in Heq, Heq'. simplify_eq. lia.
Qed.

(** Cells at different positions stand for commands at different
    positions. *)
Lemma placement_positions_NoDup cells :
  NoDup (fst <$> cells) → NoDup (position <$> omap placement cells).
Proof.
  induction cells as [|[[i j] label] cells IH];
    cbn [fmap list_fmap omap list_omap]; [constructor|].
  intros [Hnew Hrest]%NoDup_cons.
  destruct (placement (i, j, label)) as [c|] eqn:Hc; [|by apply IH].
  cbn [fmap list_fmap]. apply NoDup_cons. split; [|by apply IH].
  intros (c' & Hpos & Hc')%list_elem_of_fmap.
  apply list_elem_of_omap in Hc' as ([[i' j'] label'] & Hcell & Hplace).
  apply placement_inv in Hc as [Hc _]. apply placement_inv in Hplace as [Hp _].
  rewrite Hc, Hp in Hpos. injection Hpos as Hi Hj.
  apply Nat2Z.inj in Hi, Hj. subst i' j'.
  apply Hnew. by apply (list_elem_of_fmap_2' fst _ (i, j, label')).
Qed.

Lemma request_position_command me c :
  request_position (command_request me c)
  = (Some (PInt (position c).1), Some (PInt (position c).2)).
Proof. by destruct c. Qed.

(** X16.  Whatever strings the goal grid holds, and however the build
    ends, it sends after the fetch nothing but POSTs, each of them carries
    the row and the column of a cell of the grid that is not SPACE, and no
    two of them carry the same row and column: the build deletes nothing,
    places nothing outside the grid, and sends at most one request for a
    cell. *)
Theorem build_requests_within_grid transport elapse w grid :
  serves_goal transport w grid →
  ∃ reqs,
    sent (exec (create_crossmint_logo transport elapse) w)
    = sent w ++ goal_request (self w) :: reqs
    ∧ (length reqs ≤ length (row_major grid))%nat
    ∧ NoDup (request_position <$> reqs)
    ∧ Forall (λ r,
        req_method r = "post"
        ∧ ∃ i j row label,
            grid !! i = Some row ∧ row !! j = Some label
            ∧ label ≠ "SPACE"
            ∧ request_position r
              = (Some (PInt (Z.of_nat i)), Some (PInt (Z.of_nat j)))) reqs.
Proof.
  intros Hserve.
  destruct (build_run transport elapse grid w Hserve)
    as (w' & Hrun & Hsent & _).
  destruct (plan_prefix (row_major grid)) as [n Hn].
  exists (command_request (self w) <$> (plan (row_major grid)).1).
  unfold exec. rewrite Hrun. cbn [fst]. split; [done|]. rewrite Hn.
  split; [|split].
  - rewrite length_fmap.
    etrans; [apply length_omap_le|]. rewrite length_take. lia.
  - rewrite <- list_fmap_compose.
    rewrite (list_fmap_ext _
               ((λ p, (Some (PInt p.1), Some (PInt p.2))) ∘ position) _
               (λ _ c _, request_position_command (self w) c)).
    rewrite list_fmap_compose. apply NoDup_fmap_2.
    + intros [r1 c1] [r2 c2] [= -> ->]. done.
    + apply placement_positions_NoDup. rewrite fmap_take.
      eapply sublist_NoDup; [|apply sublist_take].
      apply grid_cells_positions_NoDup.
  - apply Forall_fmap, Forall_forall. intros c Hc. cbn.
    apply list_elem_of_omap in Hc as ([[i j] label] & Hcell & Hplace).
    apply elem_of_take in Hcell as (k & Hcell%list_elem_of_lookup_2 & _).
    apply elem_of_row_major in Hcell as (row & Hrow & Hlabel).
    destruct (placement_inv i j label c Hplace) as [Hpos Hspace].
    split; [by destruct c|]. exists i, j, row, label.
    by rewrite request_position_command, Hpos.
Qed.

Lemma build_requests_within_grid_witness :
  serves_goal (demo_transport example_grid) demo_world example_grid
  ∧ ∃ reqs,
      sent (exec (create_crossmint_logo (demo_transport example_grid)
                    no_delay) demo_world)
      = goal_request demo_api :: reqs
      ∧ NoDup (request_position <$> reqs).
Proof.
  split; [reflexivity|].
  destruct (build_requests_within_grid (demo_transport example_grid)
              no_delay demo_world example_grid)
    as (reqs & Hsent & _ & Hdup & _); [reflexivity|].
  exists reqs. split; [exact Hsent|exact Hdup].
Defined.

(** ** Pacing *)

Lemma paced_refl w : paced w w.
Proof.
  unfold paced. split; [apply same_config_refl|]. split; [done|].
  split; [lia|done].
Qed.

Lemma paced_trans w1 w2 w3 : paced w1 w2 → paced w2 w3 → paced w1 w3.
Proof.
  intros (Hc & Hlen & Hgap & Hclock) (Hc' & Hlen' & Hgap' & Hclock').
  pose proof Hc as (_ & _ & Hd).
  split; [by eapply same_config_trans|]. split; [lia|]. split; [|tauto].
  rewrite <- Hd in Hgap'. rewrite Z.mul_sub_distr_l in *. lia.
Qed.

Lemma Paced_ret {A} (a : A) : Paced (mret a).
Proof. intros w. apply paced_refl. Qed.

Lemma Paced_raise {A} e : Paced (raise (A:=A) e).
Proof. intros w. apply paced_refl. Qed.

Lemma Paced_lift {A} (o : outcome A) : Paced (lift o).
Proof. intros w. apply paced_refl. Qed.

Lemma Paced_get_self : Paced get_self.
Proof. intros w. apply paced_refl. Qed.

Lemma Paced_logging lv msg : Paced (logging lv msg).
Proof.
  intros w. unfold exec, logging, paced. cbn.
  split; [apply same_config_refl|]. split; [done|]. split; [lia|done].
Qed.

Lemma Paced_bind {A B} (m : M A) (f : A → M B) :
  Paced m → (∀ a, Paced (f a)) → Paced (m ≫= f).
Proof.
  intros Hm Hf w. specialize (Hm w). unfold exec, mbind, M_bind in *.
  destruct (m w) as [w1 [a|e]]; cbn [fst] in *; [|done].
  eapply paced_trans; [exact Hm|]. apply Hf.
Qed.

Lemma Paced_try_except {A} (body : M A) handler :
  Paced body → (∀ e h, handler e = Some h → Paced h) →
  Paced (try_except body handler).
Proof.
  intros Hbody Hhandler w. specialize (Hbody w). unfold exec, try_except in *.
  destruct (body w) as [w1 [a|e]]; cbn [fst] in *; [done|].
  destruct (handler e) as [h|] eqn:Hh; [|done].
  eapply paced_trans; [exact Hbody|]. by apply (Hhandler e h).
Qed.

Section Pacing.

Variable transport : list request → request → reply.
Variable elapse : nat → Z.

(** The clock is not set back while the client runs. *)
Hypothesis clock_forward : forward elapse.

(** A dispatch through a function of [requests]: one request more, the
    timestamp a delay later and not after the clock. *)
Lemma handle_requests_paced method endpoint kwards w :
  method ∈ requests_functions →
  let w' := exec (_handle_requests transport elapse method endpoint kwards) w in
  paced w w'
  ∧ length (sent w') = S (length (sent w))
  ∧ last_request_time (self w') ≤ clock w'.
Proof.
  intros Hm. unfold exec.
  destruct (handle_requests_run transport elapse method endpoint kwards w Hm)
    as (w' & -> & Hsent & _ & Hcfg & Hgap & Hclock).
  specialize (Hgap clock_forward). specialize (Hclock clock_forward).
  cbn [fst]. assert (length (sent w') = S (length (sent w))) as Hlen.
  { rewrite Hsent, length_app. cbn. lia. }
  split; [|done]. split; [done|]. rewrite Hlen. split; [lia|].
  split; [|done]. lia.
Qed.

Lemma Paced_handle_requests method endpoint kwards :
  method ∈ requests_functions →
  Paced (_handle_requests transport elapse method endpoint kwards).
Proof. intros Hm w. by apply handle_requests_paced. Qed.

Lemma Paced_create_object object_type row column kwargs :
  Paced (create_object transport elapse object_type row column kwargs).
Proof.
  unfold create_object. destruct (filter _ taken_keywords).
  - apply Paced_bind; [by apply Paced_handle_requests, post_is_function|].
    intros _. apply Paced_logging.
  - apply Paced_raise.
Qed.

Lemma Paced_delete_object object_type row column :
  Paced (delete_object transport elapse object_type row column).
Proof.
  unfold delete_object.
  apply Paced_bind; [|intros _; apply Paced_logging].
  apply Paced_handle_requests. by apply (bool_decide_unpack _).
Qed.

Lemma Paced_attribute_or_return lookup text :
  Paced (attribute_or_return lookup text).
Proof.
  unfold attribute_or_return. apply Paced_try_except.
  - apply Paced_bind; [apply Paced_lift|]. intros v. apply Paced_ret.
  - intros e h. case_match; [|done]. intros [= <-].
    apply Paced_bind; [apply Paced_logging|]. intros _. apply Paced_ret.
Qed.

Lemma Paced_visit i j object_name :
  Paced (visit transport elapse i j object_name).
Proof.
  unfold visit. repeat case_match; try apply Paced_ret.
  - apply Paced_bind; [apply Paced_create_object|]. intros _. apply Paced_ret.
  - apply Paced_bind; [apply Paced_lift|]. intros second.
    case_match.
    + apply Paced_bind; [apply Paced_lift|]. intros text.
      apply Paced_bind; [apply Paced_attribute_or_return|]. intros [v|].
      * apply Paced_bind; [apply Paced_create_object|]. intros _.
        apply Paced_ret.
      * apply Paced_ret.
    + apply Paced_bind; [apply Paced_lift|]. intros text.
      apply Paced_bind; [apply Paced_attribute_or_return|]. intros [v|].
      * apply Paced_bind; [apply Paced_create_object|]. intros _.
        apply Paced_ret.
      * apply Paced_ret.
Qed.

Lemma Paced_for_columns i j row :
  Paced (for_columns transport elapse i j row).
Proof.
  revert j. induction row as [|x row IH]; intros j; cbn [for_columns].
  - apply Paced_ret.
  - apply Paced_bind; [apply Paced_visit|]. intros []; [apply IH|].
    apply Paced_ret.
Qed.

Lemma Paced_for_rows i rows : Paced (for_rows transport elapse i rows).
Proof.
  revert i. induction rows as [|x rows IH]; intros i; cbn [for_rows].
  - apply Paced_ret.
  - apply Paced_bind; [apply Paced_lift|]. intros cells.
    apply Paced_bind; [apply Paced_for_columns|]. intros []; [apply IH|].
    apply Paced_ret.
Qed.

Lemma Paced_for_each {A} (xs : list A) body :
  (∀ x, Paced (body x)) → Paced (for_each xs body).
Proof.
  intros Hbody. induction xs as [|x xs IH]; cbn [for_each].
  - apply Paced_ret.
  - apply Paced_bind; [apply Hbody|]. by intros _.
Qed.

Lemma exec_bind {A B} (m : M A) (f : A → M B) w :
  exec (m ≫= f) w
  = match m w with
    | (w1, Ok a) => exec (f a) w1
    | (w1, Raise _) => w1
    end.
Proof. unfold exec, mbind, M_bind. by destruct (m w) as [w1 [a|e]]. Qed.

Lemma paced_after_dispatch w w1 w2 :
  paced w w1 →
  length (sent w1) = S (length (sent w)) →
  last_request_time (self w1) ≤ clock w1 →
  paced w1 w2 →
  same_config (self w) (self w2)
  ∧ 1 ≤ Z.of_nat (length (sent w2)) - Z.of_nat (length (sent w))
  ∧ last_request_time (self w)
    + request_delay (self w)
      * (Z.of_nat (length (sent w2)) - Z.of_nat (length (sent w)))
      ≤ last_request_time (self w2)
  ∧ last_request_time (self w2) ≤ clock w2.
Proof.
  intros H1 Hlen Hclock H2.
  destruct (paced_trans _ _ _ H1 H2) as (Hc & Hl & Hgap & _).
  destruct H2 as (_ & Hl2 & _ & Hclock2).
  split; [done|]. split; [lia|]. split; [done|]. by apply Hclock2.
Qed.

(** X17.  On a clock that is not set back, a build is paced by the
    limiter from end to end, however it ends: it sends at least the fetch,
    it keeps the configuration, and it moves the limiter's timestamp on by
    at least [request_delay] for each request it has sent; the timestamp
    ends not after the clock. *)
Theorem build_is_paced w :
  let w' := exec (create_crossmint_logo transport elapse) w in
  let n := Z.of_nat (length (sent w')) - Z.of_nat (length (sent w)) in
  same_config (self w) (self w')
  ∧ 1 ≤ n
  ∧ last_request_time (self w) + request_delay (self w) * n
      ≤ last_request_time (self w')
  ∧ last_request_time (self w') ≤ clock w'.
Proof.
  cbv zeta. unfold create_crossmint_logo. rewrite exec_bind.
  pose proof (handle_requests_paced "get"
                ("map/" +:+ candidate_id (self w) +:+ "/goal") ∅ w
                get_is_function) as (Hfetch & Hlen & Hclock).
  assert (goal_map transport elapse w
          = _handle_requests transport elapse "get"
              ("map/" +:+ candidate_id (self w) +:+ "/goal") ∅ w) as ->
    by reflexivity.
  unfold exec in Hfetch, Hlen, Hclock.
  destruct (_handle_requests transport elapse "get" _ ∅ w) as [w1 [v|e]];
    cbn [fst] in *.
  - eapply paced_after_dispatch; [exact Hfetch|exact Hlen|exact Hclock|].
    destruct v; try apply Paced_ret.
    apply Paced_bind; [apply Paced_lift|]. intros goal.
    apply Paced_bind; [apply Paced_lift|]. intros rows.
    apply Paced_bind; [apply Paced_for_rows|]. intros _. apply Paced_ret.
  - eapply paced_after_dispatch; [exact Hfetch|exact Hlen|exact Hclock|].
    apply paced_refl.
Qed.

(** X18.  On a clock that is not set back, the cross holds the limiter
    for thirteen delays: whatever the replies, [create_polyanet_cross]
    moves the timestamp on by at least 13 times [request_delay]. *)
Theorem cross_is_paced w :
  let w' := exec (create_polyanet_cross transport elapse) w in
  same_config (self w) (self w')
  ∧ last_request_time (self w) + 13 * request_delay (self w)
      ≤ last_request_time (self w').
Proof.
  intros w'. subst w'.
  assert (Paced (create_polyanet_cross transport elapse)) as Hpaced.
  { unfold create_polyanet_cross. apply Paced_for_each. intros i.
    repeat case_match; try apply Paced_ret; try apply Paced_create_object.
    apply Paced_bind; [apply Paced_create_object|]. intros _.
    apply Paced_create_object. }
  destruct (Hpaced w) as (Hcfg & _ & Hgap & _).
  destruct (run_commands_ok transport elapse (range 11 ≫= cross_commands) w)
    as (w' & Hrun & Hsent & _).
  assert (create_polyanet_cross transport elapse w = (w', Ok ())) as Hcross.
  { rewrite <- Hrun. unfold create_polyanet_cross.
    apply for_each_commands. intros. apply cross_body. }
  unfold exec in *. rewrite Hcross in *. cbn [fst] in *.
  rewrite Hsent, length_app in Hgap.
  change (length (command_request (self w) <$> range 11 ≫= cross_commands))
    with 13%nat in Hgap.
  split; [done|lia].
Qed.

End Pacing.

(** ** Runs of the further properties *)

Lemma category_is_cometh_or_soloon_witness :
  split "_" "RED_PLANET" = ["RED"; "PLANET"]
  ∧ "PLANET" ≠ "COMETH"
  ∧ SoloonColor_member "RED" = Some RED
  ∧ ∃ w', visit dead_transport no_delay 3 4 (JStr "RED_PLANET") demo_world
          = (w', Ok Continue)
      ∧ sent w' = [command_request demo_api (CreateColorMarker 3 4 RED)].
Proof.
  split; [reflexivity|]. split; [done|]. split; [reflexivity|].
  apply (proj2 (category_is_cometh_or_soloon dead_transport no_delay
                  3 4 demo_world) "RED_PLANET" "RED" "PLANET" [] RED).
  - reflexivity.
  - done.
  - reflexivity.
Defined.

Lemma build_raises_on_plain_label_witness :
  let grid := [["POLYANET"; "FOO"; "POLYANET"]] in
  serves_goal (demo_transport grid) demo_world grid
  ∧ ∃ w', create_crossmint_logo (demo_transport grid) no_delay demo_world
          = (w', Raise (Exn IndexError "list index out of range"))
      ∧ sent w' = [goal_request demo_api;
                   command_request demo_api (CreatePoint 0 0)].
Proof.
  intros grid. split; [reflexivity|].
  apply (build_raises_on_plain_label (demo_transport grid) no_delay
           demo_world grid [(0, 0, "POLYANET")]%nat 0%nat 1%nat "FOO"
           [(0, 2, "POLYANET")]%nat).
  - reflexivity.
  - reflexivity.
  - by repeat constructor.
  - done.
  - done.
  - by apply (bool_decide_unpack _).
Defined.

Lemma build_raises_on_non_string_cell_witness :
  let goal := JArr [JArr [JStr "POLYANET"]; JArr [JStr "SPACE"; JNum 7]] in
  let t := constant_transport (JObj [("goal", goal)]) in
  ∃ w' e, create_crossmint_logo t no_delay demo_world = (w', Raise e)
    ∧ exn_cls e = AttributeError
    ∧ sent w' = [goal_request demo_api;
                 command_request demo_api (CreatePoint 0 0)].
Proof.
  intros goal t.
  apply (build_raises_on_non_string_cell t no_delay demo_world
           [("goal", goal)] [["POLYANET"]] ["SPACE"] (JNum 7) [] []).
  - reflexivity.
  - reflexivity.
  - by repeat constructor.
  - by repeat constructor.
  - done.
Defined.

Lemma build_raises_on_malformed_dict_witness :
  let t := constant_transport (JObj [("error", JBool true)]) in
  ("goal" ∉ [("error", JBool true)].*1)
  ∧ ∃ w' e, create_crossmint_logo t no_delay demo_world = (w', Raise e)
      ∧ exn_cls e = KeyError
      ∧ sent w' = [goal_request demo_api].
Proof.
  intros t. split; [by apply (bool_decide_unpack _)|].
  apply (proj1 (build_raises_on_malformed_dict t no_delay demo_world
                  [("error", JBool true)] eq_refl)).
  by apply (bool_decide_unpack _).
Defined.

Lemma build_of_empty_grid_witness :
  let grid := [["SPACE"; "SPACE"]; []] in
  serves_goal (demo_transport grid) demo_world grid
  ∧ Forall (Forall (λ label, label = "SPACE")) grid
  ∧ ∃ w', create_crossmint_logo (demo_transport grid) no_delay demo_world
          = (w', Ok ())
      ∧ sent w' = [goal_request demo_api]
      ∧ logs w' = [].
Proof.
  intros grid. split; [reflexivity|]. split; [by repeat constructor|].
  apply (build_of_empty_grid (demo_transport grid) no_delay demo_world grid).
  - reflexivity.
  - by repeat constructor.
Defined.

Lemma build_is_paced_witness :
  forward no_delay
  ∧ let w' := exec (create_crossmint_logo (demo_transport example_grid)
                      no_delay) demo_world in
    length (sent w') = 4%nat
    ∧ last_request_time (self demo_world)
      + request_delay (self demo_world)
        * (Z.of_nat (length (sent w')) - Z.of_nat (length (sent demo_world)))
      ≤ last_request_time (self w').
Proof.
  split; [by intros n|]. split; [by vm_compute|].
  destruct (build_is_paced (demo_transport example_grid) no_delay
              (λ n, Z.le_refl 0) demo_world) as (_ & _ & Hgap & _).
  exact Hgap.
Defined.

Lemma cross_is_paced_witness :
  forward no_delay
  ∧ let w' := exec (create_polyanet_cross dead_transport no_delay) demo_world in
    last_request_time (self demo_world) + 13 * request_delay (self demo_world)
    ≤ last_request_time (self w').
Proof.
  split; [by intros n|].
  destruct (cross_is_paced dead_transport no_delay (λ n, Z.le_refl 0)
              demo_world) as (_ & Hgap).
  exact Hgap.
Defined.
